(** * The GDevelop P2P relay server: a model of its session registry

    The server keeps one [Player] object per PeerJS data connection in a
    global [Map] called [players], keyed by the peer id.  Every piece of
    server code runs as the reaction to one event of the browser's event
    loop (a PeerJS event or an expired [setTimeout]), so the program is
    modelled as a state machine: one function per source function, each
    taking the state before and giving the state after, and a [handle]
    function that dispatches one event to its handler.

    A handler can be left by an exception: reading a property of [null],
    a JSON text that does not parse, a value that has no string
    conversion when the list on the page is drawn.  The functions that
    can raise give an [outcome], which keeps the state reached when the
    exception left them; what the source would have done next is not
    done.

    JavaScript objects have identity: the registry holds references, and
    [close] compares [players.get(this.id) === this].  [Player] objects
    and the connections they hold live in two stores indexed by
    allocation order, and a reference is an index. *)

From Stdlib Require Import Floats.PrimFloat.
From Stdlib Require Import Strings.Ascii.
From stdpp Require Import base option list strings.

Local Open Scope string_scope.
Local Open Scope list_scope.

(** ** JavaScript values *)

(** The values that cross the wire and end up in the fields of a
    [Player]: what JSON.parse can return, plus [undefined].  Numbers are
    IEEE doubles, as in the language. *)
#[warnings="-register-all"]
Inductive value : Type :=
| VUndefined
| VNull
| VBool (b : bool)
| VNum (n : float)
| VStr (s : string)
| VArr (items : list value)
| VObj (props : list (string * value)).

(** The literal [0]. *)
Definition zero : value := VNum 0%float.

(** ToBoolean: [undefined], [null], [false], [+0], [-0], [NaN] and the
    empty string are falsy, everything else is truthy. *)
Definition truthy (v : value) : bool :=
  match v with
  | VUndefined | VNull => false
  | VBool b => b
  | VNum n => negb (PrimFloat.eqb n 0%float || negb (PrimFloat.eqb n n))
  | VStr s => negb (String.eqb s "")
  | VArr _ | VObj _ => true
  end.

(** [a || b] *)
Definition js_or (a b : value) : value := if truthy a then a else b.

(** [v === undefined] *)
Definition is_undefined (v : value) : bool :=
  match v with VUndefined => true | _ => false end.

(** [v === "s"] for a string literal: strict equality never coerces. *)
Definition is_string (v : value) (s : string) : bool :=
  match v with VStr s' => String.eqb s' s | _ => false end.

Fixpoint own_property (k : string) (props : list (string * value)) : option value :=
  match props with
  | [] => None
  | (k', v) :: rest => if String.eqb k' k then Some v else own_property k rest
  end.

(** The exceptions the server code can raise. *)
Inductive exn : Type :=
| TypeError
| SyntaxError.

(** Property read [v.k].  Reading a property of [undefined] or [null]
    raises a TypeError (here [None]); on an object it is the own property
    or [undefined]; on the other values it is [undefined] for every name
    the server reads (eventName, data, x, y, animation), none of which is
    defined on a prototype. *)
Definition get (v : value) (k : string) : option value :=
  match v with
  | VUndefined | VNull => None
  | VObj props => Some (default VUndefined (own_property k props))
  | VBool _ | VNum _ | VStr _ | VArr _ => Some VUndefined
  end.


(** Whether string concatenation can convert the value, as in
    ["X: " + v].  The conversion of an object asks its [valueOf], which
    gives no primitive, and then its [toString]: an object with an own
    property of that name, which in a parsed JSON text is never a
    function, has no conversion and the concatenation raises a TypeError.
    An array is converted by joining the conversions of its elements. *)
Fixpoint printable (v : value) : bool :=
  match v with
  | VObj props =>
      match own_property "toString" props with
      | Some _ => false
      | None => true
      end
  | VArr items => forallb printable items
  | VUndefined | VNull | VBool _ | VNum _ | VStr _ => true
  end.

(** ** The stores *)

(** A reference to a [Player] object or to a connection. *)
Abbreviation ref := nat (only parsing).

(** What the server and PeerJS read and change of a DataConnection:
    [connection.peer]; whether [close()] was called on it;
    [connection.open], which PeerJS sets when the data channel opens and
    clears in [close()]; and [connection.peerConnection], which is [null]
    ([None]) once [close()] has torn the connection down and otherwise an
    RTCPeerConnection, of which the server reads the [connectionState]. *)
Record Connection : Type := mkConnection {
  peer : string;
  closed : bool;
  is_open : bool;
  peerConnection : option string
}.

(** class Player: the fields [x = 0; y = 0; animation = 0; flip = 0] and
    the two set by the constructor. *)
Record Player : Type := mkPlayer {
  _c : ref;
  id : string;
  x : value;
  y : value;
  animation : value;
  flip : value
}.

#[global] Instance Connection_inhabited : Inhabited Connection :=
  populate (mkConnection "" false false None).
#[global] Instance Player_inhabited : Inhabited Player :=
  populate (mkPlayer 0 "" zero zero zero zero).

(** A callback waiting in the timer queue.  Both [setTimeout] calls of
    the server use the same delay (500), so callbacks run in the order in
    which they were scheduled. *)
Inductive task : Type :=
| Checker (player : ref)            (* disconnectChecker of that player *)
| SendDisconnected (this : ref).    (* the arrow function of close() *)

Record state : Type := mkState {
  players : list (string * ref);   (* the Map, in insertion order *)
  objs : list Player;              (* every Player ever constructed *)
  conns : list Connection;         (* the connection each Player holds *)
  timers : list task;              (* pending setTimeout callbacks *)
  sent : list (ref * value);       (* the calls connection.send(message) *)
  logger : string;                 (* innerText of the #logger paragraph *)
  list_ui : list (string * list value)
    (* the items of the #list element: the key shown in the h5 of an
       item, and the values shown in its h6 elements *)
}.

Definition init : state := mkState [] [] [] [] [] "" [].

Definition set_players (f : list (string * ref) -> list (string * ref)) (st : state) : state :=
  mkState (f (players st)) (objs st) (conns st) (timers st) (sent st) (logger st) (list_ui st).
Definition set_objs (f : list Player -> list Player) (st : state) : state :=
  mkState (players st) (f (objs st)) (conns st) (timers st) (sent st) (logger st) (list_ui st).
Definition set_conns (f : list Connection -> list Connection) (st : state) : state :=
  mkState (players st) (objs st) (f (conns st)) (timers st) (sent st) (logger st) (list_ui st).
Definition set_timers (f : list task -> list task) (st : state) : state :=
  mkState (players st) (objs st) (conns st) (f (timers st)) (sent st) (logger st) (list_ui st).
Definition set_sent (f : list (ref * value) -> list (ref * value)) (st : state) : state :=
  mkState (players st) (objs st) (conns st) (timers st) (f (sent st)) (logger st) (list_ui st).
Definition set_logger (f : string -> string) (st : state) : state :=
  mkState (players st) (objs st) (conns st) (timers st) (sent st) (f (logger st)) (list_ui st).
Definition set_list_ui (l : list (string * list value)) (st : state) : state :=
  mkState (players st) (objs st) (conns st) (timers st) (sent st) (logger st) l.

(** How a handler ends: it returns, or an exception leaves it.  Either
    way the state reached so far stays. *)
Inductive outcome : Type :=
| Return (st : state)
| Throw (err : exn) (st : state).

Definition state_of (o : outcome) : state :=
  match o with Return st | Throw _ st => st end.

(** Sequencing: what follows a statement runs only if the statement
    returned. *)
Definition bind (o : outcome) (k : state -> outcome) : outcome :=
  match o with
  | Return st => k st
  | Throw err st => Throw err st
  end.

Notation "st <~ o ;; k" := (bind o (fun st => k))
  (at level 200, o at level 99, k at level 200, right associativity,
   format "'[v' st  <~  o  ;;  '/' k ']'").

(** ** The Map *)

(** [Map.prototype.get]: [None] is [undefined]. *)
Fixpoint map_get (k : string) (m : list (string * ref)) : option ref :=
  match m with
  | [] => None
  | (k', v) :: rest => if String.eqb k' k then Some v else map_get k rest
  end.

(** [Map.prototype.has] *)
Definition map_has (k : string) (m : list (string * ref)) : bool :=
  match map_get k m with Some _ => true | None => false end.

(** [Map.prototype.set]: an existing key keeps its place in the iteration
    order and gets the new value, a new key goes to the end. *)
Fixpoint map_set (k : string) (v : ref) (m : list (string * ref)) : list (string * ref) :=
  match m with
  | [] => [(k, v)]
  | (k', v') :: rest =>
      if String.eqb k' k then (k, v) :: rest else (k', v') :: map_set k v rest
  end.

(** [Map.prototype.delete] *)
Fixpoint map_delete (k : string) (m : list (string * ref)) : list (string * ref) :=
  match m with
  | [] => []
  | (k', v') :: rest =>
      if String.eqb k' k then map_delete k rest else (k', v') :: map_delete k rest
  end.


(** ** Effects on the outside world *)

(** [connection.send(message)].  PeerJS sends on an open connection; the
    server sends to the sender of a data message and to the sessions in
    the Map, whose connections are open (an invariant, [wf_open]
    below). *)
Definition connection_send (c : ref) (message : value) (st : state) : state :=
  set_sent (fun l => l ++ [(c, message)]) st.

(** [connection.close()] as PeerJS has it: the connection is torn down
    ([peerConnection] becomes [null]); if it was open it is marked as not
    open and the "close" event is emitted, which runs the listener that
    the Player constructor registered, inside the call.  An exception of
    the listener leaves [close()] too. *)
Definition connection_close (c : ref) (listener : state -> outcome) (st : state) : outcome :=
  let was_open := is_open (conns st !!! c) in
  let st := set_conns (fun cs =>
    <[c := mkConnection (peer (cs !!! c)) true false None]> cs) st in
  if was_open then listener st else Return st.

(** [setTimeout(callback, 500)] *)
Definition setTimeout (t : task) (st : state) : state :=
  set_timers (fun q => q ++ [t]) st.

Definition newline : string := String "010"%char "".

(** function log(message) *)
Definition log (message : string) (st : state) : state :=
  set_logger (fun text => text +:+ newline +:+ message) st.

(** The loop of [updateList]: for each entry of [players] an item is
    appended to the list, then the key is put into it, then
    ["X: " + player.x], then ["Y: " + player.y].  A concatenation that
    raises leaves the loop with the item as far as it got.  The result is
    the items drawn and whether the loop came to its end. *)
Fixpoint draw (os : list Player) (entries : list (string * ref))
    (drawn : list (string * list value)) : list (string * list value) * bool :=
  match entries with
  | [] => (drawn, true)
  | (c, player) :: rest =>
      if printable (x (os !!! player)) then
        if printable (y (os !!! player)) then
          draw os rest (drawn ++ [(c, [x (os !!! player); y (os !!! player)])])
        else (drawn ++ [(c, [x (os !!! player)])], false)
      else (drawn ++ [(c, [])], false)
  end.

(** function updateList(): the list is emptied and drawn anew. *)
Definition updateList (st : state) : outcome :=
  let '(items, finished) := draw (objs st) (players st) [] in
  if finished then Return (set_list_ui items st)
  else Throw TypeError (set_list_ui items st).

(** Field assignments [this.x = v] and the like. *)
Definition assign_x (this : ref) (v : value) (st : state) : state :=
  set_objs (fun os => let me := os !!! this in
    <[this := mkPlayer (_c me) (id me) v (y me) (animation me) (flip me)]> os) st.
Definition assign_y (this : ref) (v : value) (st : state) : state :=
  set_objs (fun os => let me := os !!! this in
    <[this := mkPlayer (_c me) (id me) (x me) v (animation me) (flip me)]> os) st.
Definition assign_animation (this : ref) (v : value) (st : state) : state :=
  set_objs (fun os => let me := os !!! this in
    <[this := mkPlayer (_c me) (id me) (x me) (y me) v (flip me)]> os) st.
Definition assign_flip (this : ref) (v : value) (st : state) : state :=
  set_objs (fun os => let me := os !!! this in
    <[this := mkPlayer (_c me) (id me) (x me) (y me) (animation me) v]> os) st.

(** ** The server *)

Section Server.

(** The two built-ins of the language the server calls.  [JSON.parse]
    takes any value (it converts it to a string first) and either returns
    the parsed value or raises an exception ([None]), which the model
    calls SyntaxError whatever its kind; it never returns [undefined].
    [JSON.stringify] gives a string, or [undefined]. *)
Variable JSON_parse : value -> option value.
Variable JSON_stringify : value -> value.

(** function parseJSON(json): the try/catch around JSON.parse. *)
Definition parseJSON (json : value) : value :=
  match JSON_parse json with
  | Some v => v
  | None => VUndefined
  end.

(** send(name, payload, skipStringify) *)
Definition send (this : ref) (name : string) (payload skipStringify : value)
    (st : state) : state :=
  connection_send (_c (objs st !!! this))
    (VObj [("eventName", VStr name);
           ("data", if truthy skipStringify then payload else JSON_stringify payload)])
    st.

(** _sendEventToAll(name, payload, skipStringify) *)
Definition _sendEventToAll (this : ref) (name : string) (payload skipStringify : value)
    (st : state) : state :=
  fold_left
    (fun s '(key, player) =>
       if String.eqb key (id (objs s !!! this)) then s  (* continue *)
       else send player name payload skipStringify s)
    (players st) st.

(** close(), with the listener that [this._c.close()] runs if the
    connection is open. *)
Definition close_with (listener : state -> outcome) (this : ref) (st : state) : outcome :=
  st <~ connection_close (_c (objs st !!! this)) listener st ;;
  let st :=
    if bool_decide (map_get (id (objs st !!! this)) (players st) = Some this)
    then set_players (map_delete (id (objs st !!! this))) st
    else st in
  st <~ updateList st ;;
  Return (setTimeout (SendDisconnected this) st).

(** connection.on("close", () => { this.close(); log(...) }).  The
    listener runs inside [connection.close()], which has marked the
    connection as not open before: the [this._c.close()] of its
    [this.close()] emits nothing, and is given no listener of its own
    ([on_close_is_the_listener] below). *)
Definition on_close (this : ref) (st : state) : outcome :=
  st <~ close_with Return this st ;;
  Return (log ("Disconnected: " +:+ id (objs st !!! this)) st).

(** close() *)
Definition close (this : ref) (st : state) : outcome :=
  close_with (on_close this) this st.

(** updateClient() *)
Definition updateClient (this : ref) (st : state) : state :=
  let payload :=
    fold_left
      (fun payload '(key, player) =>
         if String.eqb key (id (objs st !!! this)) then payload  (* continue *)
         else payload ++
              [VObj [("x", x (objs st !!! player));
                     ("y", y (objs st !!! player));
                     ("animation", animation (objs st !!! player));
                     ("flip", flip (objs st !!! player));
                     ("name", VStr key)]])
      (players st) [] in
  send this "update" (VArr payload) VUndefined st.

(** onUpdate(e) *)
Definition onUpdate (this : ref) (e : value) (st : state) : outcome :=
  if is_undefined e then Return st else
  match get e "eventName" with
  | None => Throw TypeError st
  | Some eventName =>
  if is_undefined eventName then Return st else
  match get e "data" with
  | None => Throw TypeError st
  | Some e_data =>
  match JSON_parse e_data with
  | None => Throw SyntaxError st
  | Some data =>
  let after_update :=
    if is_string eventName "update" then
      if is_undefined data then None (* return *) else
      match get data "x" with
      | None => Some (Throw TypeError st)
      | Some data_x =>
      let st := assign_x this (js_or data_x zero) st in
      match get data "y" with
      | None => Some (Throw TypeError st)
      | Some data_y =>
      let st := assign_y this (js_or data_y zero) st in
      match get data "animation" with
      | None => Some (Throw TypeError st)
      | Some data_animation =>
      let st := assign_animation this (js_or data_animation zero) st in
      let st := updateClient this st in
      Some (updateList st)
      end end end
    else Some (Return st) in
  match after_update with
  | None => Return st
  | Some (Throw err st) => Throw err st
  | Some (Return st) =>
      if is_string eventName "flip" then Return (assign_flip this data st)
      else Return st
  end
  end end end.

(** The function [disconnectChecker] of the Player constructor.  Reading
    [connectionState] of a [peerConnection] that is [null] raises. *)
Definition disconnectChecker (player : ref) (st : state) : outcome :=
  match peerConnection (conns st !!! _c (objs st !!! player)) with
  | None => Throw TypeError st
  | Some status =>
      if String.eqb status "failed" || String.eqb status "disconnected"
      then close player st
      else Return (setTimeout (Checker player) st)
  end.

(** The constructor: [new Player(connection)].  The Player takes hold of
    the connection ([this._c = connection]): both enter their stores.
    The four handlers it registers on the connection are [on_close],
    [on_error], [on_open] and [on_data], run by [handle] when the
    connection emits the event.  (The test of the Map in the constructor
    finds nothing when the constructor is called from
    peer.on("connection"), which has closed the session under the peer
    id just before: [admission_eq] below.) *)
Definition new_Player (connection : Connection) (st : state) : outcome :=
  let this := length (objs st) in
  let _c := length (conns st) in
  let st := set_conns (fun cs => cs ++ [connection]) st in
  let st := set_objs (fun os =>
    os ++ [mkPlayer _c (peer connection) zero zero zero zero]) st in
  st <~ (* if(players.has(this.id)) players.get(this.id).close(); *)
        match map_get (id (objs st !!! this)) (players st) with
        | Some previous => close previous st
        | None => Return st
        end ;;
  disconnectChecker this st.

(** connection.on("error", ...); [error] is the error as the string
    concatenation renders it. *)
Definition on_error (this : ref) (error : string) (st : state) : outcome :=
  st <~ close this st ;;
  let st := set_players (map_delete (id (objs st !!! this))) st in
  Return (log ("An Error occured while communicating with " +:+ id (objs st !!! this)
               +:+ ", connection closed. " +:+ error) st).

(** connection.on("open", ...) *)
Definition on_open (this : ref) (st : state) : outcome :=
  let st := log ("Connected: " +:+ id (objs st !!! this)) st in
  let st := set_players (map_set (id (objs st !!! this)) this) st in
  updateList st.

(** connection.on("data", e => this.onUpdate(e)) *)
Definition on_data (this : ref) (e : value) (st : state) : outcome :=
  onUpdate this e st.

(** peer.on("connection", ...) *)
Definition peer_on_connection (connection : Connection) (st : state) : outcome :=
  let id := peer connection in
  st <~ (* if(players.has(id)) players.get(id).close(); *)
        match map_get id (players st) with
        | Some previous => close previous st
        | None => Return st
        end ;;
  new_Player connection st.

(** A timer callback runs. *)
Definition run_task (t : task) (st : state) : outcome :=
  match t with
  | Checker player => disconnectChecker player st
  | SendDisconnected this =>
      Return (_sendEventToAll this "disconnected" (VStr (id (objs st !!! this)))
                (VBool true) st)
  end.

(** ** The event loop *)

(** What the outside world does to the server: PeerJS emits an event, the
    oldest timer expires, or the network changes the connectivity status
    of a connection. *)
Inductive event : Type :=
| PeerOpen
| PeerClose
| Connection_ (peer_id : string) (connection_state : string)
| Open (this : ref)
| Close (this : ref)
| Error (this : ref) (error : string)
| Data (this : ref) (e : value)
| Timeout
| ConnectionState (connection : ref) (connection_state : string).

(** One turn of the event loop.  The events of a connection reach the
    handlers of the Player constructed for it, so they are named by that
    Player and exist only for constructed Players.
    - A connection arrives not yet open, with a [peerConnection].
    - PeerJS marks a connection as open and then emits "open".
    - [Close] is PeerJS closing the connection itself, as when the other
      side has closed it: it calls [connection.close()], which emits
      "close" if the connection was open.
    - Data arrives on open connections only.
    - The status of a [peerConnection] that is [null] cannot change.
    Beyond that the model puts no condition on the order of the events:
    every theorem about reachable states holds for every sequence of
    them, among them sequences that PeerJS does not produce (an "open"
    for a connection that was closed before it opened, say). *)
Definition handle (st : state) (ev : event) : outcome :=
  match ev with
  | PeerOpen => Return (log "Server Connected to P2P network." st)
  | PeerClose => Return (log "Connection to network lost. Please reload page." st)
  | Connection_ peer_id connection_state =>
      peer_on_connection (mkConnection peer_id false false (Some connection_state)) st
  | Open this =>
      if bool_decide (this < length (objs st))
      then on_open this
             (set_conns (fun cs =>
                let c := _c (objs st !!! this) in
                <[c := mkConnection (peer (cs !!! c)) (closed (cs !!! c)) true
                                    (peerConnection (cs !!! c))]> cs) st)
      else Return st
  | Close this =>
      if bool_decide (this < length (objs st))
      then connection_close (_c (objs st !!! this)) (on_close this) st
      else Return st
  | Error this error =>
      if bool_decide (this < length (objs st)) then on_error this error st
      else Return st
  | Data this e =>
      if bool_decide (this < length (objs st)) && is_open (conns st !!! _c (objs st !!! this))
      then on_data this e st
      else Return st
  | Timeout =>
      match timers st with
      | [] => Return st
      | t :: rest => run_task t (set_timers (fun _ => rest) st)
      end
  | ConnectionState connection connection_state =>
      Return (set_conns (fun cs =>
        match peerConnection (cs !!! connection) with
        | Some _ =>
            <[connection := mkConnection (peer (cs !!! connection))
                              (closed (cs !!! connection))
                              (is_open (cs !!! connection))
                              (Some connection_state)]> cs
        | None => cs
        end) st)
  end.

(** An exception that leaves a handler ends the turn and keeps the state
    reached. *)
Definition step (st : state) (ev : event) : state := state_of (handle st ev).

Definition run (st : state) (evs : list event) : state := fold_left step evs st.

(** The states the server can be in. *)
Inductive reachable : state -> Prop :=
| reachable_init : reachable init
| reachable_step st ev : reachable st -> reachable (step st ev).

End Server.

(** ** Vocabulary of the properties *)

(** The object [{eventName: name, data: data}] that [send] hands to the
    connection. *)
Definition message (name : string) (data : value) : value :=
  VObj [("eventName", VStr name); ("data", data)].

(** The record [{x, y, animation, flip, name}] of one entry of the Map. *)
Definition roster_entry (st : state) (e : string * ref) : value :=
  VObj [("x", x (objs st !!! e.2));
        ("y", y (objs st !!! e.2));
        ("animation", animation (objs st !!! e.2));
        ("flip", flip (objs st !!! e.2));
        ("name", VStr e.1)].

(** The player whose monitor a pending callback is, if it is one. *)
Definition checker_of (t : task) : option ref :=
  match t with Checker player => Some player | SendDisconnected _ => None end.

Definition task_ref (t : task) : ref :=
  match t with Checker r | SendDisconnected r => r end.

(** The x and y of every entry of the Map [m] have a string conversion:
    the loop of [updateList] comes to its end. *)
Definition draws (os : list Player) (m : list (string * ref)) : bool :=
  forallb (fun e => printable (x (os !!! e.2)) && printable (y (os !!! e.2))) m.

Definition list_draws (st : state) : bool := draws (objs st) (players st).

(** The state [updateList] leaves, whether it returns or throws. *)
Definition redrawn (st : state) : state :=
  set_list_ui (draw (objs st) (players st) []).1 st.

(** The first two steps of [close]: the connection is torn down, and the
    entry under the id of the session is deleted if it holds this very
    session. *)
Definition cleanup (c : ref) (st : state) : state :=
  set_conns (fun cs => <[c := mkConnection (peer (cs !!! c)) true false None]> cs) st.

Definition unregister (this : ref) (st : state) : state :=
  if bool_decide (map_get (id (objs st !!! this)) (players st) = Some this)
  then set_players (map_delete (id (objs st !!! this))) st
  else st.

Definition closing (this : ref) (st : state) : state :=
  unregister this (cleanup (_c (objs st !!! this)) st).

(** The stores after the constructor has taken hold of the connection. *)
Definition admitted (connection : Connection) (st : state) : state :=
  set_objs (fun os => os ++ [mkPlayer (length (conns st)) (peer connection)
                               zero zero zero zero])
    (set_conns (fun cs => cs ++ [connection]) st).

(** The connection that arrives: not open yet, with its [peerConnection]. *)
Definition arriving (peer_id connection_state : string) : Connection :=
  mkConnection peer_id false false (Some connection_state).

(** The arrival of a connection ends with the TypeError of [updateList],
    before the Player is constructed: the peer id is in the Map, and the
    list cannot be drawn once its session is closed. *)
Definition admission_aborts (peer_id : string) (st : state) : bool :=
  match map_get peer_id (players st) with
  | Some previous => negb (list_draws (closing previous st))
  | None => false
  end.

(** The state in which the constructor hands over to the first liveness
    check, when the arrival is not aborted. *)
Definition before_first_check (peer_id status : string) (st : state) : state :=
  admitted (arriving peer_id status)
    match map_get peer_id (players st) with
    | Some previous => state_of (close previous st)
    | None => st
    end.

(** The line the close handler logs. *)
Definition disconnected_line (this : ref) (st : state) : string :=
  "Disconnected: " +:+ id (objs st !!! this).

(** The invariant of the stores. *)
Record wf (st : state) : Prop := mk_wf {
  wf_alloc : length (conns st) = length (objs st);
  wf_conn : forall r, r < length (objs st) -> _c (objs st !!! r) = r;
  wf_key : forall k r, (k, r) ∈ players st ->
             r < length (objs st) /\ id (objs st !!! r) = k;
  wf_nodup : NoDup (players st).*1;
  wf_timer : forall t, t ∈ timers st -> task_ref t < length (objs st);
  wf_checker : NoDup (omap checker_of (timers st));
  wf_open : forall k r, (k, r) ∈ players st -> is_open (conns st !!! r) = true;
  wf_closed : forall c, c < length (conns st) ->
                (closed (conns st !!! c) = true <-> peerConnection (conns st !!! c) = None);
  wf_peer : forall r, r < length (objs st) -> id (objs st !!! r) = peer (conns st !!! r)
}.

(** [st'] has the sessions of [st]: the same Map, connections and timers,
    and the same Player objects up to their x, y, animation and flip. *)
Definition keeps (st st' : state) : Prop :=
  players st' = players st /\ conns st' = conns st /\ timers st' = timers st /\
  length (objs st') = length (objs st) /\
  forall r, _c (objs st' !!! r) = _c (objs st !!! r) /\
            id (objs st' !!! r) = id (objs st !!! r).

(** The item that [updateList] shows for one entry of the Map. *)
Definition list_item (st : state) (e : string * ref) : string * list value :=
  (e.1, [x (objs st !!! e.2); y (objs st !!! e.2)]).

(** The list on the page is what the loop of [updateList] draws from
    the Map and the sessions as they are now. *)
Definition list_is_drawn (st : state) : Prop :=
  list_ui st = (draw (objs st) (players st) []).1.

(** The list on the page shows the Map as it is now. *)
Definition list_shows_players (st : state) : Prop :=
  list_ui st = map (list_item st) (players st).

Definition is_error_event (ev : event) : bool :=
  match ev with Error _ _ => true | _ => false end.

(** The identity an event is about: the peer that connects, the id of
    the session whose handler or liveness check runs. *)
Definition event_identity (st : state) (ev : event) : option string :=
  match ev with
  | Connection_ peer_id _ => Some peer_id
  | Open this | Close this | Error this _ | Data this _ => Some (id (objs st !!! this))
  | Timeout =>
      match timers st with
      | Checker player :: _ => Some (id (objs st !!! player))
      | _ => None
      end
  | PeerOpen | PeerClose | ConnectionState _ _ => None
  end.

(** The events by which a session closes: the close and error events of
    its connection, the arrival of a connection of its peer while the Map
    holds the session, and a liveness check that finds the status
    "failed" or "disconnected". *)
Definition closes (st : state) (player : ref) (ev : event) : Prop :=
  match ev with
  | Close this | Error this _ => this = player
  | Connection_ peer_id _ => map_get peer_id (players st) = Some player
  | Timeout =>
      exists rest status,
        timers st = Checker player :: rest /\
        peerConnection (conns st !!! _c (objs st !!! player)) = Some status /\
        (status = "failed" \/ status = "disconnected")
  | PeerOpen | PeerClose | Open _ | Data _ _ | ConnectionState _ _ => False
  end.

(** The line the error handler logs. *)
Definition error_line (this : ref) (error : string) (st : state) : string :=
  "An Error occured while communicating with " +:+ id (objs st !!! this)
    +:+ ", connection closed. " +:+ error.

(** The lines a call of [close] adds to the log: the line of the close
    handler, if the connection was open and [close] was not aborted. *)
Definition close_lines (this : ref) (st : state) : list string :=
  if list_draws (closing this st) && is_open (conns st !!! _c (objs st !!! this))
  then [disconnected_line this st] else [].

(** The lines an event adds to the log. *)
Definition log_lines (st : state) (ev : event) : list string :=
  match ev with
  | PeerOpen => ["Server Connected to P2P network."]
  | PeerClose => ["Connection to network lost. Please reload page."]
  | Connection_ peer_id _ =>
      match map_get peer_id (players st) with
      | Some previous => close_lines previous st
      | None => []
      end
  | Open this =>
      if bool_decide (this < length (objs st))
      then ["Connected: " +:+ id (objs st !!! this)] else []
  | Close this =>
      if bool_decide (this < length (objs st)) then close_lines this st else []
  | Error this error =>
      if bool_decide (this < length (objs st)) && list_draws (closing this st)
      then close_lines this st ++ [error_line this error st]
      else []
  | Timeout =>
      match timers st with
      | Checker player :: _ =>
          match peerConnection (conns st !!! _c (objs st !!! player)) with
          | Some status =>
              if bool_decide (status = "failed" \/ status = "disconnected")
              then close_lines player st else []
          | None => []
          end
      | _ => []
      end
  | Data _ _ | ConnectionState _ _ => []
  end.

(** The log after the lines have been added to it. *)
Definition logged (lines : list string) (text : string) : string :=
  fold_left (fun text line => text +:+ newline +:+ line) lines text.

(** The two kinds of message the server sends: a roster, as JSON text,
    and the id of a session that closed, as it is. *)
Definition server_message (JSON_stringify : value -> value) (m : value) : Prop :=
  (exists roster, m = message "update" (JSON_stringify (VArr roster))) \/
  (exists departed, m = message "disconnected" (VStr departed)).

(** The events [onUpdate] acts on. *)
Definition recognized (e : value) : Prop :=
  get e "eventName" = Some (VStr "update") \/ get e "eventName" = Some (VStr "flip").

(** ** Sample built-ins for the examples

    The theorems below hold for every [JSON_parse] and [JSON_stringify].
    The examples need the built-ins at a few arguments only: [JSON.parse]
    at the five texts listed and at the text "{", which does not parse,
    and [JSON.stringify] at the empty array.  The two tables give the
    built-ins there and are used for nothing else. *)

Definition dquote : string := String "034"%char "".

(** The text [{"x":"abc"}]. *)
Definition text_x_abc : string :=
  "{" +:+ dquote +:+ "x" +:+ dquote +:+ ":" +:+ dquote +:+ "abc" +:+ dquote +:+ "}".

(** The text [{"x":false}]. *)
Definition text_x_false : string :=
  "{" +:+ dquote +:+ "x" +:+ dquote +:+ ":false}".

(** The text [{"x":{"toString":1}}]: JSON.parse gives an object whose x
    is an object with an own property [toString] that is not a function,
    so that its conversion to a string raises a TypeError. *)
Definition text_x_unprintable : string :=
  "{" +:+ dquote +:+ "x" +:+ dquote +:+ ":{" +:+ dquote +:+ "toString" +:+ dquote +:+ ":1}}".

Definition JSON_parse_sample (json : value) : option value :=
  match json with
  | VStr s =>
      if String.eqb s text_x_abc then Some (VObj [("x", VStr "abc")])
      else if String.eqb s text_x_false then Some (VObj [("x", VBool false)])
      else if String.eqb s text_x_unprintable
        then Some (VObj [("x", VObj [("toString", VNum 1)])])
      else if String.eqb s "true" then Some (VBool true)
      else if String.eqb s "null" then Some VNull
      else None   (* "{" *)
  | _ => None
  end.

Definition JSON_stringify_sample (v : value) : value :=
  match v with
  | VArr [] => VStr "[]"
  | _ => VUndefined
  end.

Definition sample_handle : state -> event -> outcome :=
  handle JSON_parse_sample JSON_stringify_sample.

Definition sample_step : state -> event -> state :=
  step JSON_parse_sample JSON_stringify_sample.

Definition sample_run : state -> list event -> state :=
  run JSON_parse_sample JSON_stringify_sample.

(** Peer "A" connected and its connection opened. *)
Definition st_A : state :=
  sample_run init [Connection_ "A" "connected"; Open 0].

(** Peers "A" and "B" connected and both connections opened. *)
Definition st_AB : state :=
  sample_run init
    [Connection_ "A" "connected"; Connection_ "B" "connected"; Open 0; Open 1].

(** Two connections arrived from peer "A" before either opened, and the
    second one has opened. *)
Definition st_AA_second_open : state :=
  sample_run init
    [Connection_ "A" "connected"; Connection_ "A" "connected"; Open 1].

(** Peers "A" and "B" connected; only the connection of "A" has opened. *)
Definition st_A_open_B_pending : state :=
  sample_run init
    [Connection_ "A" "connected"; Connection_ "B" "connected"; Open 0].

(** Two connections arrived from peer "A"; the second one opened, and
    then the first: the Map holds session 0 under "A", and both
    connections are open. *)
Definition st_AA_both_open : state :=
  sample_run init
    [Connection_ "A" "connected"; Connection_ "A" "connected"; Open 1; Open 0].

(** Peers "A" and "B" connected and opened, the connection of "B" has
    closed, and the two liveness checks have run since: the notification
    of the close is the callback that runs next. *)
Definition st_B_closed : state :=
  sample_run init
    [Connection_ "A" "connected"; Connection_ "B" "connected"; Open 0; Open 1;
     Close 1; Timeout; Timeout].

(** Peer "B" connected, opened and reported an x that has no string
    conversion; then peer "A" connected and opened.  The Map is B, A. *)
Definition st_B_unprintable_A : state :=
  sample_run init
    [Connection_ "B" "connected"; Open 0;
     Data 0 (message "update" (VStr text_x_unprintable));
     Connection_ "A" "connected"; Open 1].

(** ** The test client

    The page also holds a client for trying the server out.  Its "update"
    button sends the values of the two input elements, which are
    strings, as the JSON text of an object. *)

Section Client.

Variable JSON_stringify : value -> value.

(** The message of the click handler of the "update" button:
    [{eventName: "update", data: JSON.stringify({x: posXi.value, y: posYi.value})}]. *)
Definition client_update (posX posY : string) : value :=
  VObj [("eventName", VStr "update");
        ("data", JSON_stringify (VObj [("x", VStr posX); ("y", VStr posY)]))].

End Client.

(** Sample built-ins for the test client: [JSON.stringify] at the object
    the client sends for the inputs "12" and "", and [JSON.parse] at the
    text it gives. *)
Definition text_client_12 : string :=
  "{" +:+ dquote +:+ "x" +:+ dquote +:+ ":" +:+ dquote +:+ "12" +:+ dquote +:+ ","
      +:+ dquote +:+ "y" +:+ dquote +:+ ":" +:+ dquote +:+ dquote +:+ "}".

Definition JSON_stringify_client (v : value) : value :=
  match v with
  | VObj [("x", VStr "12"); ("y", VStr "")] => VStr text_client_12
  | VArr [] => VStr "[]"
  | _ => VUndefined
  end.

Definition JSON_parse_client (json : value) : option value :=
  match json with
  | VStr s =>
      if String.eqb s text_client_12 then Some (VObj [("x", VStr "12"); ("y", VStr "")])
      else None
  | _ => None
  end.
(** * Properties *)

(** ** The Map operations *)

Lemma map_get_elem_of k v (m : list (string * ref)) :
  map_get k m = Some v -> (k, v) ∈ m.
Proof.
  induction m as [|[k' v'] m IH]; simpl; [done|].
  destruct (String.eqb_spec k' k) as [->|Hne].
  - intros [= ->]. apply list_elem_of_here.
  - intros H. apply list_elem_of_further. auto.
Qed.

Lemma map_get_None k (m : list (string * ref)) :
  map_get k m = None <-> k ∉ m.*1.
Proof.
  induction m as [|[k' v'] m IH]; simpl.
  - split; [intros _; apply not_elem_of_nil | done].
  - destruct (String.eqb_spec k' k) as [->|Hne].
    + split; [done|]. intros H. exfalso. apply H, list_elem_of_here.
    + rewrite IH, not_elem_of_cons. intuition congruence.
Qed.

Lemma map_get_unique k v (m : list (string * ref)) :
  NoDup m.*1 -> (k, v) ∈ m -> map_get k m = Some v.
Proof.
  induction m as [|[k' v'] m IH]; simpl; intros Hnd Hin.
  - by apply elem_of_nil in Hin.
  - apply NoDup_cons in Hnd as [Hk' Hnd].
    apply elem_of_cons in Hin as [[= <- <-]|Hin].
    + by rewrite String.eqb_refl.
    + destruct (String.eqb_spec k' k) as [->|Hne]; [|by auto].
      exfalso. apply Hk'. apply (list_elem_of_fmap_2 fst) in Hin. exact Hin.
Qed.

Lemma map_delete_filter k (m : list (string * ref)) :
  map_delete k m = filter (fun e => e.1 ≠ k) m.
Proof.
  induction m as [|[k' v'] m IH]; simpl; [done|].
  destruct (String.eqb_spec k' k) as [->|Hne].
  - rewrite filter_cons_False by (simpl; auto). exact IH.
  - rewrite filter_cons_True by (simpl; auto). by rewrite IH.
Qed.

Lemma elem_of_map_delete e k (m : list (string * ref)) :
  e ∈ map_delete k m <-> e ∈ m /\ e.1 ≠ k.
Proof. rewrite map_delete_filter, list_elem_of_filter. tauto. Qed.

Lemma map_delete_keys k (m : list (string * ref)) :
  (map_delete k m).*1 = filter (fun k' => k' ≠ k) m.*1.
Proof.
  induction m as [|[k' v'] m IH]; [done|].
  rewrite fmap_cons. cbn [map_delete fst].
  destruct (String.eqb_spec k' k) as [->|Hne].
  - rewrite filter_cons_False by auto. exact IH.
  - rewrite filter_cons_True by auto. by rewrite fmap_cons, IH.
Qed.

Lemma map_delete_NoDup k (m : list (string * ref)) :
  NoDup m.*1 -> NoDup (map_delete k m).*1.
Proof. rewrite map_delete_keys. apply NoDup_filter. Qed.

Lemma map_get_delete_eq k (m : list (string * ref)) :
  map_get k (map_delete k m) = None.
Proof.
  induction m as [|[k' v'] m IH]; simpl; [done|].
  destruct (String.eqb_spec k' k) as [->|Hne]; simpl; [done|].
  destruct (String.eqb_spec k' k); [done | exact IH].
Qed.

Lemma map_get_delete_ne k k' (m : list (string * ref)) :
  k' ≠ k -> map_get k' (map_delete k m) = map_get k' m.
Proof.
  intros Hne. induction m as [|[k0 v0] m IH]; simpl; [done|].
  destruct (String.eqb_spec k0 k) as [->|Hne0]; simpl.
  - destruct (String.eqb_spec k k') as [->|_]; [done | exact IH].
  - destruct (String.eqb_spec k0 k'); [done | exact IH].
Qed.

Lemma elem_of_map_set e k v (m : list (string * ref)) :
  e ∈ map_set k v m -> e = (k, v) \/ e ∈ m.
Proof.
  induction m as [|[k' v'] m IH]; simpl.
  - intros ->%list_elem_of_singleton. by left.
  - destruct (String.eqb_spec k' k) as [->|Hne]; rewrite !elem_of_cons;
      intuition auto.
Qed.

Lemma map_set_keys k v (m : list (string * ref)) :
  (map_set k v m).*1 = if bool_decide (k ∈ m.*1) then m.*1 else m.*1 ++ [k].
Proof.
  induction m as [|[k' v'] m IH].
  - cbn. rewrite bool_decide_eq_false_2; [done | apply not_elem_of_nil].
  - rewrite fmap_cons. cbn [map_set fst].
    destruct (String.eqb_spec k' k) as [->|Hne].
    + rewrite bool_decide_eq_true_2; [done | apply list_elem_of_here].
    + rewrite fmap_cons, IH. cbn [fst].
      destruct (bool_decide_reflect (k ∈ m.*1)) as [Hin|Hout].
      * rewrite bool_decide_eq_true_2; [done | by apply list_elem_of_further].
      * rewrite bool_decide_eq_false_2; [done|].
        rewrite not_elem_of_cons. split; [congruence | done].
Qed.

Lemma map_set_NoDup k v (m : list (string * ref)) :
  NoDup m.*1 -> NoDup (map_set k v m).*1.
Proof.
  intros Hnd. rewrite map_set_keys.
  destruct (bool_decide_reflect (k ∈ m.*1)) as [Hin|Hout]; [done|].
  apply NoDup_app. split_and!; [done | | apply NoDup_singleton].
  intros k' Hk' ->%list_elem_of_singleton. done.
Qed.

Lemma map_get_set_eq k v (m : list (string * ref)) :
  map_get k (map_set k v m) = Some v.
Proof.
  induction m as [|[k' v'] m IH]; simpl.
  - by rewrite String.eqb_refl.
  - destruct (String.eqb_spec k' k) as [->|Hne]; simpl.
    + by rewrite String.eqb_refl.
    + destruct (String.eqb_spec k' k); [done | exact IH].
Qed.

Lemma map_get_set_ne k k' v (m : list (string * ref)) :
  k' ≠ k -> map_get k' (map_set k v m) = map_get k' m.
Proof.
  intros Hne. induction m as [|[k0 v0] m IH]; simpl.
  - destruct (String.eqb_spec k k'); [congruence | done].
  - destruct (String.eqb_spec k0 k) as [->|Hne0]; simpl.
    + destruct (String.eqb_spec k k'); [congruence | done].
    + destruct (String.eqb_spec k0 k'); [done | exact IH].
Qed.

Lemma filter_key_absent i (m : list (string * ref)) :
  i ∉ m.*1 -> filter (fun e => e.1 = i) m = [].
Proof.
  induction m as [|[k v] m IH]; simpl; [done|].
  rewrite not_elem_of_cons. intros [Hne Hout].
  rewrite filter_cons_False by (simpl; congruence). auto.
Qed.

(** A Map without two entries under one key holds at most one entry for
    any given key. *)
Lemma NoDup_keys_at_most_one i (m : list (string * ref)) :
  NoDup m.*1 -> length (filter (fun e => e.1 = i) m) <= 1.
Proof.
  induction m as [|[k v] m IH]; simpl; intros Hnd; [lia|].
  apply NoDup_cons in Hnd as [Hk Hnd].
  destruct (decide (k = i)) as [->|Hne].
  - rewrite filter_cons_True by done.
    rewrite filter_key_absent by done. simpl. lia.
  - rewrite filter_cons_False by done. auto.
Qed.

(** ** What each function changes *)

Section Effects.

Variable JSON_parse : value -> option value.
Variable JSON_stringify : value -> value.

Lemma send_eq this name payload skipStringify st :
  send JSON_stringify this name payload skipStringify st =
  connection_send (_c (objs st !!! this))
    (message name (if truthy skipStringify then payload else JSON_stringify payload)) st.
Proof. reflexivity. Qed.

(** The loop of [_sendEventToAll] sends one message to the connection of
    every entry whose key is not [this.id], in the order of the Map, and
    does nothing else. *)
Lemma _sendEventToAll_eq this name payload skipStringify st :
  _sendEventToAll JSON_stringify this name payload skipStringify st =
  set_sent (fun l => l ++
    map (fun e : string * ref =>
           (_c (objs st !!! e.2),
            message name (if truthy skipStringify then payload else JSON_stringify payload)))
        (filter (fun e => e.1 ≠ id (objs st !!! this)) (players st))) st.
Proof.
  unfold _sendEventToAll.
  assert (forall m s, objs s = objs st ->
    fold_left (fun s '(key, player) =>
       if String.eqb key (id (objs s !!! this)) then s
       else send JSON_stringify player name payload skipStringify s) m s =
    set_sent (fun l => l ++
      map (fun e : string * ref =>
             (_c (objs st !!! e.2),
              message name (if truthy skipStringify then payload else JSON_stringify payload)))
          (filter (fun e => e.1 ≠ id (objs st !!! this)) m)) s) as Hloop.
  { induction m as [|[key player] m IH]; intros s Hs.
    - destruct s. unfold set_sent. simpl. by rewrite app_nil_r.
    - cbn [fold_left]. rewrite Hs.
      destruct (String.eqb_spec key (id (objs st !!! this))) as [->|Hne].
      + rewrite filter_cons_False by (simpl; auto). by apply IH.
      + rewrite filter_cons_True by (simpl; auto).
        rewrite IH by done. rewrite send_eq, Hs.
        unfold connection_send, set_sent. cbn. by rewrite <- app_assoc. }
  by apply Hloop.
Qed.

(** The loop of [updateClient] collects one record per entry whose key is
    not [this.id], in the order of the Map. *)
Lemma updateClient_eq this st :
  updateClient JSON_stringify this st =
  connection_send (_c (objs st !!! this))
    (message "update" (JSON_stringify (VArr
       (map (roster_entry st)
            (filter (fun e => e.1 ≠ id (objs st !!! this)) (players st)))))) st.
Proof.
  unfold updateClient. rewrite send_eq. cbn [truthy].
  do 4 f_equal.
  assert (forall m acc,
    fold_left (fun payload '(key, player) =>
       if String.eqb key (id (objs st !!! this)) then payload
       else payload ++
            [VObj [("x", x (objs st !!! player));
                   ("y", y (objs st !!! player));
                   ("animation", animation (objs st !!! player));
                   ("flip", flip (objs st !!! player));
                   ("name", VStr key)]]) m acc =
    acc ++ map (roster_entry st)
               (filter (fun e => e.1 ≠ id (objs st !!! this)) m)) as Hloop.
  { induction m as [|[key player] m IH]; intros acc.
    - cbn. by rewrite app_nil_r.
    - cbn [fold_left].
      destruct (String.eqb_spec key (id (objs st !!! this))) as [->|Hne].
      + rewrite filter_cons_False by (simpl; auto). apply IH.
      + rewrite filter_cons_True by (simpl; auto).
        rewrite IH. cbn [map]. by rewrite <- app_assoc. }
  apply (Hloop (players st) []).
Qed.

End Effects.

(** ** How the handlers end *)

Lemma list_insert_lookup_total {A} `{!Inhabited A} (l : list A) i a j :
  <[i := a]> l !!! j = if bool_decide (j = i /\ i < length l) then a else l !!! j.
Proof.
  case_bool_decide as Hcase.
  - destruct Hcase as [-> Hlt]. by rewrite list_lookup_total_insert_eq.
  - destruct (decide (i < length l)) as [Hlt|Hge].
    + rewrite list_lookup_total_insert_ne; [done | intros ->; tauto].
    + by rewrite list_insert_ge by lia.
Qed.

Lemma state_of_bind (P : state -> Prop) o k :
  P (state_of o) -> (forall s, o = Return s -> P (state_of (k s))) ->
  P (state_of (bind o k)).
Proof. destruct o; simpl; auto. Qed.

Lemma draw_app os m drawn :
  draw os m drawn = (drawn ++ (draw os m []).1, (draw os m []).2).
Proof.
  revert drawn. induction m as [|[c player] m IH]; intros drawn; simpl.
  - by rewrite app_nil_r.
  - destruct (printable (x (os !!! player))); [|done].
    destruct (printable (y (os !!! player))); [|done].
    rewrite (IH (drawn ++ _)), (IH [_]). simpl. by rewrite <- app_assoc.
Qed.

(** The loop of [updateList] comes to its end exactly when every x and y
    it renders has a string conversion. *)
Lemma draw_finished os m : (draw os m []).2 = draws os m.
Proof.
  induction m as [|[c player] m IH]; simpl; [done|].
  destruct (printable (x (os !!! player))); [|done].
  destruct (printable (y (os !!! player))); [|done].
  rewrite draw_app. simpl. exact IH.
Qed.

(** When it does, the list shows one item per entry, with its x and y. *)
Lemma draw_all os m :
  draws os m = true ->
  (draw os m []).1 = map (fun e : string * ref => (e.1, [x (os !!! e.2); y (os !!! e.2)])) m.
Proof.
  induction m as [|[c player] m IH]; simpl; [done|].
  destruct (printable (x (os !!! player))); [|done].
  destruct (printable (y (os !!! player))); [|done].
  simpl. intros Hm. rewrite draw_app. simpl. by rewrite IH.
Qed.

Lemma updateList_eq st :
  updateList st =
  if list_draws st then Return (redrawn st) else Throw TypeError (redrawn st).
Proof.
  unfold updateList, redrawn, list_draws. rewrite <- draw_finished.
  by destruct (draw (objs st) (players st) []) as [items []].
Qed.

Lemma updateList_state st : state_of (updateList st) = redrawn st.
Proof. rewrite updateList_eq. by destruct (list_draws st). Qed.

Lemma redrawn_shows st : list_draws st = true -> list_shows_players (redrawn st).
Proof. intros Hd. unfold list_shows_players, redrawn. simpl. by apply draw_all. Qed.

(** [cleanup] and [unregister], field by field. *)
Lemma cleanup_cleanup c st : cleanup c (cleanup c st) = cleanup c st.
Proof.
  unfold cleanup, set_conns. simpl. f_equal.
  rewrite list_insert_insert_eq. f_equal. f_equal.
  destruct (decide (c < length (conns st))).
  - by rewrite list_lookup_total_insert_eq.
  - by rewrite list_insert_ge by lia.
Qed.

Lemma unregister_objs this st : objs (unregister this st) = objs st.
Proof. unfold unregister. by case_bool_decide. Qed.
Lemma unregister_conns this st : conns (unregister this st) = conns st.
Proof. unfold unregister. by case_bool_decide. Qed.
Lemma unregister_sent this st : sent (unregister this st) = sent st.
Proof. unfold unregister. by case_bool_decide. Qed.
Lemma unregister_timers this st : timers (unregister this st) = timers st.
Proof. unfold unregister. by case_bool_decide. Qed.
Lemma unregister_logger this st : logger (unregister this st) = logger st.
Proof. unfold unregister. by case_bool_decide. Qed.
Lemma unregister_list_ui this st : list_ui (unregister this st) = list_ui st.
Proof. unfold unregister. by case_bool_decide. Qed.

Lemma unregister_players this st :
  players (unregister this st) =
  if bool_decide (map_get (id (objs st !!! this)) (players st) = Some this)
  then map_delete (id (objs st !!! this)) (players st)
  else players st.
Proof. unfold unregister. by case_bool_decide. Qed.

(** After [unregister] the Map does not hold the session under its id. *)
Lemma unregister_done this st :
  map_get (id (objs st !!! this)) (players (unregister this st)) ≠ Some this.
Proof.
  rewrite unregister_players. case_bool_decide; [|done].
  by rewrite map_get_delete_eq.
Qed.

Lemma unregister_id this st s :
  objs s = objs st -> players s = players (unregister this st) -> unregister this s = s.
Proof.
  intros Ho Hp. unfold unregister. rewrite bool_decide_eq_false_2; [done|].
  rewrite Ho, Hp. apply unregister_done.
Qed.

Lemma closing_objs this st : objs (closing this st) = objs st.
Proof. unfold closing. by rewrite unregister_objs. Qed.
Lemma closing_sent this st : sent (closing this st) = sent st.
Proof. unfold closing. by rewrite unregister_sent. Qed.
Lemma closing_timers this st : timers (closing this st) = timers st.
Proof. unfold closing. by rewrite unregister_timers. Qed.
Lemma closing_logger this st : logger (closing this st) = logger st.
Proof. unfold closing. by rewrite unregister_logger. Qed.
Lemma closing_list_ui this st : list_ui (closing this st) = list_ui st.
Proof. unfold closing. by rewrite unregister_list_ui. Qed.

Lemma closing_conns this st :
  conns (closing this st) =
  <[_c (objs st !!! this) :=
      mkConnection (peer (conns st !!! _c (objs st !!! this))) true false None]> (conns st).
Proof. unfold closing. by rewrite unregister_conns. Qed.

Lemma closing_players this st :
  players (closing this st) =
  if bool_decide (map_get (id (objs st !!! this)) (players st) = Some this)
  then map_delete (id (objs st !!! this)) (players st)
  else players st.
Proof. unfold closing. by rewrite unregister_players. Qed.

Lemma closing_cleanup this st :
  closing this (cleanup (_c (objs st !!! this)) st) = closing this st.
Proof. unfold closing. cbn [objs cleanup set_conns]. by rewrite cleanup_cleanup. Qed.

(** [this._c.close()] emits nothing when the connection is not open. *)
Lemma connection_close_not_open c listener st :
  is_open (conns st !!! c) = false ->
  connection_close c listener st = Return (cleanup c st).
Proof. unfold connection_close. by intros ->. Qed.

Lemma connection_close_open c listener st :
  is_open (conns st !!! c) = true ->
  connection_close c listener st = listener (cleanup c st).
Proof. unfold connection_close. by intros ->. Qed.

(** [close] without a listener on the connection: the connection is torn
    down, the entry deleted if it is this session's, the list drawn, and
    if that went through the notification is scheduled. *)
Lemma close_with_Return_eq this st :
  close_with Return this st =
  let s := closing this st in
  if list_draws s then Return (setTimeout (SendDisconnected this) (redrawn s))
  else Throw TypeError (redrawn s).
Proof.
  unfold close_with, connection_close.
  assert (forall s0, (if is_open (conns st !!! _c (objs st !!! this))
                      then Return s0 else Return s0) = Return s0) as ->
    by (intros; by destruct (is_open _)).
  cbn [bind]. fold (cleanup (_c (objs st !!! this)) st).
  change (objs (cleanup (_c (objs st !!! this)) st)) with (objs st).
  change (players (cleanup (_c (objs st !!! this)) st)) with (players st).
  cbv zeta.
  assert ((if bool_decide (map_get (id (objs st !!! this)) (players st) = Some this)
           then set_players (map_delete (id (objs st !!! this)))
                  (cleanup (_c (objs st !!! this)) st)
           else cleanup (_c (objs st !!! this)) st) = closing this st) as ->
    by reflexivity.
  rewrite updateList_eq. by destruct (list_draws _).
Qed.

Lemma on_close_eq this st :
  on_close this st =
  let s := closing this st in
  if list_draws s
  then Return (log (disconnected_line this st) (setTimeout (SendDisconnected this) (redrawn s)))
  else Throw TypeError (redrawn s).
Proof.
  unfold on_close. rewrite close_with_Return_eq. cbv zeta.
  destruct (list_draws _); [|done]. cbn [bind].
  unfold disconnected_line. cbn [objs setTimeout set_timers redrawn set_list_ui].
  by rewrite closing_objs.
Qed.

(** [close], in one piece.  The connection is torn down and the entry
    under the id deleted if it holds this session; then the list is
    drawn.  If a value in it has no string conversion, [close] ends there
    with the TypeError.  Otherwise it schedules its notification; when
    the connection was open, the close event it emits has run [close]
    once more inside, so that two notifications are scheduled and the
    close handler has logged its line. *)
Lemma close_eq this st :
  close this st =
  let s := closing this st in
  if list_draws s then
    Return (if is_open (conns st !!! _c (objs st !!! this))
            then setTimeout (SendDisconnected this)
                   (log (disconnected_line this st)
                      (setTimeout (SendDisconnected this) (redrawn s)))
            else setTimeout (SendDisconnected this) (redrawn s))
  else Throw TypeError (redrawn s).
Proof.
  destruct (is_open (conns st !!! _c (objs st !!! this))) eqn:Hopen.
  - unfold close, close_with. rewrite connection_close_open by done.
    rewrite on_close_eq. cbn [objs cleanup set_conns]. rewrite closing_cleanup. cbv zeta.
    unfold disconnected_line. cbn [objs cleanup set_conns].
    destruct (list_draws (closing this st)) eqn:Hdraws; [|done].
    cbn [bind].
    set (s1 := log _ _).
    assert (objs s1 = objs st) as Ho1 by (subst s1; simpl; apply closing_objs).
    assert (players s1 = players (closing this st)) as Hp1 by done.
    assert ((if bool_decide (map_get (id (objs s1 !!! this)) (players s1) = Some this)
             then set_players (map_delete (id (objs s1 !!! this))) s1 else s1) = s1) as ->.
    { rewrite bool_decide_eq_false_2; [done|].
      rewrite Ho1, Hp1.
      exact (unregister_done this (cleanup (_c (objs st !!! this)) st)). }
    rewrite updateList_eq.
    assert (list_draws s1 = list_draws (closing this st)) as -> by done.
    rewrite Hdraws. cbn [bind]. done.
  - unfold close. fold (close_with Return this st).
    assert (close_with (on_close this) this st = close_with Return this st) as ->.
    { unfold close_with. by rewrite !connection_close_not_open by done. }
    apply close_with_Return_eq.
Qed.

(** The close handler as the source has it, [this.close(); log(...)]:
    where it runs, inside [connection.close()], the connection is no
    longer open, and there [on_close] is that. *)
Lemma cleanup_not_open c st :
  c < length (conns st) -> is_open (conns (cleanup c st) !!! c) = false.
Proof.
  intros Hc. unfold cleanup. simpl. by rewrite list_lookup_total_insert_eq.
Qed.

Lemma on_close_is_the_listener this st :
  is_open (conns st !!! _c (objs st !!! this)) = false ->
  on_close this st =
  (s <~ close this st ;; Return (log ("Disconnected: " +:+ id (objs s !!! this)) s)).
Proof.
  intros Hopen. unfold on_close, close.
  assert (close_with (on_close this) this st = close_with Return this st) as ->; [|done].
  unfold close_with. by rewrite !connection_close_not_open by done.
Qed.

(** ** What [close] changes *)

Ltac close_cases :=
  rewrite close_eq; cbv zeta;
  destruct (list_draws _); [destruct (is_open _)|]; simpl.

Lemma close_objs this st : objs (state_of (close this st)) = objs st.
Proof.
  close_cases; apply closing_objs.
Qed.

Lemma close_sent this st : sent (state_of (close this st)) = sent st.
Proof.
  close_cases; apply closing_sent.
Qed.

Lemma close_conns this st :
  conns (state_of (close this st)) =
  <[_c (objs st !!! this) :=
      mkConnection (peer (conns st !!! _c (objs st !!! this))) true false None]> (conns st).
Proof.
  close_cases; apply closing_conns.
Qed.

Lemma close_players this st :
  players (state_of (close this st)) =
  if bool_decide (map_get (id (objs st !!! this)) (players st) = Some this)
  then map_delete (id (objs st !!! this)) (players st)
  else players st.
Proof.
  close_cases; apply closing_players.
Qed.

(** [close] schedules no callback but its own notification: none if it
    is aborted, two if the connection was open, one otherwise. *)
Lemma close_timers this st :
  exists n, n <= 2 /\
    timers (state_of (close this st)) = timers st ++ replicate n (SendDisconnected this).
Proof.
  close_cases; rewrite closing_timers.
  - exists 2. split; [lia|]. by rewrite <- app_assoc.
  - exists 1. split; [lia | done].
  - exists 0. split; [lia|]. by rewrite app_nil_r.
Qed.

Lemma close_conns_other this st c :
  c ≠ _c (objs st !!! this) -> conns (state_of (close this st)) !!! c = conns st !!! c.
Proof. intros Hne. rewrite close_conns. by apply list_lookup_total_insert_ne. Qed.

Lemma close_conns_closed this st :
  _c (objs st !!! this) < length (conns st) ->
  conns (state_of (close this st)) !!! _c (objs st !!! this) =
  mkConnection (peer (conns st !!! _c (objs st !!! this))) true false None.
Proof. intros Hlt. rewrite close_conns. by rewrite list_lookup_total_insert_eq. Qed.

Lemma close_length_conns this st :
  length (conns (state_of (close this st))) = length (conns st).
Proof. rewrite close_conns. apply length_insert. Qed.

(** A session that the Map does not hold under its id leaves the Map
    untouched when it closes. *)
Lemma close_players_unregistered this st :
  map_get (id (objs st !!! this)) (players st) ≠ Some this ->
  players (state_of (close this st)) = players st.
Proof. intros Hne. rewrite close_players. by rewrite bool_decide_eq_false_2. Qed.

Lemma close_players_registered this st :
  map_get (id (objs st !!! this)) (players st) = Some this ->
  players (state_of (close this st)) = map_delete (id (objs st !!! this)) (players st).
Proof. intros Heq. rewrite close_players. by rewrite bool_decide_eq_true_2. Qed.

Lemma omap_checker_of_notifications n this :
  omap checker_of (replicate n (SendDisconnected this)) = [].
Proof. induction n; [done | exact IHn]. Qed.

Lemma elem_of_notifications t n this :
  t ∈ replicate n (SendDisconnected this) -> t = SendDisconnected this.
Proof. by intros [-> _]%elem_of_replicate. Qed.

(** The liveness check, by cases on what it reads. *)
Lemma disconnectChecker_eq player st :
  disconnectChecker player st =
  match peerConnection (conns st !!! _c (objs st !!! player)) with
  | None => Throw TypeError st
  | Some status =>
      if bool_decide (status = "failed" \/ status = "disconnected")
      then close player st
      else Return (setTimeout (Checker player) st)
  end.
Proof.
  unfold disconnectChecker.
  destruct (peerConnection _) as [status|]; [|done].
  destruct (String.eqb_spec status "failed") as [Hf|Hf]; simpl.
  - rewrite bool_decide_eq_true_2; [done | by left].
  - destruct (String.eqb_spec status "disconnected") as [Hd|Hd].
    + rewrite bool_decide_eq_true_2; [done | by right].
    + rewrite bool_decide_eq_false_2; [done | tauto].
Qed.

Lemma disconnectChecker_objs player st :
  objs (state_of (disconnectChecker player st)) = objs st.
Proof.
  rewrite disconnectChecker_eq. destruct (peerConnection _); [|done].
  case_bool_decide; [apply close_objs | done].
Qed.

Lemma disconnectChecker_sent player st :
  sent (state_of (disconnectChecker player st)) = sent st.
Proof.
  rewrite disconnectChecker_eq. destruct (peerConnection _); [|done].
  case_bool_decide; [apply close_sent | done].
Qed.

Lemma disconnectChecker_players_unregistered player st :
  map_get (id (objs st !!! player)) (players st) ≠ Some player ->
  players (state_of (disconnectChecker player st)) = players st.
Proof.
  intros Hne. rewrite disconnectChecker_eq. destruct (peerConnection _); [|done].
  case_bool_decide; [by apply close_players_unregistered | done].
Qed.

Lemma disconnectChecker_conns_other player st c :
  c ≠ _c (objs st !!! player) ->
  conns (state_of (disconnectChecker player st)) !!! c = conns st !!! c.
Proof.
  intros Hne. rewrite disconnectChecker_eq. destruct (peerConnection _); [|done].
  case_bool_decide; [by apply close_conns_other | done].
Qed.

Lemma disconnectChecker_length_conns player st :
  length (conns (state_of (disconnectChecker player st))) = length (conns st).
Proof.
  rewrite disconnectChecker_eq. destruct (peerConnection _); [|done].
  case_bool_decide; [by apply close_length_conns | done].
Qed.

(** ** The invariant *)

Lemma keeps_refl st : keeps st st.
Proof. by repeat split. Qed.

Lemma keeps_trans st1 st2 st3 : keeps st1 st2 -> keeps st2 st3 -> keeps st1 st3.
Proof.
  intros (Hp & Hc & Ht & Hl & Hf) (Hp' & Hc' & Ht' & Hl' & Hf').
  repeat split; try congruence.
  - rewrite (proj1 (Hf' r)). apply Hf.
  - rewrite (proj2 (Hf' r)). apply Hf.
Qed.

Lemma wf_keeps st st' : keeps st st' -> wf st -> wf st'.
Proof.
  intros (Hp & Hc & Ht & Hl & Hf) [Ha Hco Hk Hn Hti Hch Hop Hcl Hpe].
  split; rewrite ?Hp, ?Hc, ?Ht, ?Hl; try done.
  - intros r Hr. rewrite (proj1 (Hf r)). auto.
  - intros k r Hin. rewrite (proj2 (Hf r)). auto.
  - intros r Hr. rewrite (proj2 (Hf r)). auto.
Qed.

(** An assignment to x, y, animation or flip rewrites one object and
    keeps its connection and id. *)
Lemma insert_keeps st this (me' : Player) :
  _c me' = _c (objs st !!! this) -> id me' = id (objs st !!! this) ->
  keeps st (set_objs (fun os => <[this := me']> os) st).
Proof.
  intros Hc Hi. repeat split; simpl; try done.
  - apply length_insert.
  - destruct (decide (this < length (objs st))) as [Hlt|Hge].
    + destruct (decide (r = this)) as [->|Hne].
      * by rewrite list_lookup_total_insert_eq.
      * by rewrite list_lookup_total_insert_ne.
    + by rewrite list_insert_ge by lia.
  - destruct (decide (this < length (objs st))) as [Hlt|Hge].
    + destruct (decide (r = this)) as [->|Hne].
      * by rewrite list_lookup_total_insert_eq.
      * by rewrite list_lookup_total_insert_ne.
    + by rewrite list_insert_ge by lia.
Qed.

Lemma assign_x_keeps this v st : keeps st (assign_x this v st).
Proof. by apply insert_keeps. Qed.
Lemma assign_y_keeps this v st : keeps st (assign_y this v st).
Proof. by apply insert_keeps. Qed.
Lemma assign_animation_keeps this v st : keeps st (assign_animation this v st).
Proof. by apply insert_keeps. Qed.
Lemma assign_flip_keeps this v st : keeps st (assign_flip this v st).
Proof. by apply insert_keeps. Qed.

Lemma connection_send_keeps c m st : keeps st (connection_send c m st).
Proof. by repeat split. Qed.
Lemma redrawn_keeps st : keeps st (redrawn st).
Proof. by repeat split. Qed.
Lemma updateList_keeps st : keeps st (state_of (updateList st)).
Proof. rewrite updateList_state. apply redrawn_keeps. Qed.
Lemma log_keeps text st : keeps st (log text st).
Proof. by repeat split. Qed.
Lemma set_sent_keeps f st : keeps st (set_sent f st).
Proof. by repeat split. Qed.

(** Deleting a key keeps the invariant. *)
Lemma wf_delete k st : wf st -> wf (set_players (map_delete k) st).
Proof.
  intros [Ha Hco Hk Hn Hti Hch Hop Hcl Hpe]. split; simpl; try done.
  - intros k' r [Hin _]%elem_of_map_delete. auto.
  - by apply map_delete_NoDup.
  - intros k' r [Hin _]%elem_of_map_delete. eauto.
Qed.

(** A state that differs from [st] as the states [close] goes through do
    has the invariant. *)
Lemma wf_closing this st st' :
  this < length (objs st) -> wf st ->
  objs st' = objs st ->
  conns st' = conns (closing this st) ->
  players st' = players (closing this st) ->
  (exists n, timers st' = timers st ++ replicate n (SendDisconnected this)) ->
  wf st'.
Proof.
  intros Hthis [Ha Hco Hk Hn Hti Hch Hop Hcl Hpe] Ho Hc Hp [n Ht].
  rewrite closing_conns in Hc. rewrite closing_players in Hp.
  rewrite (Hco this Hthis) in Hc.
  split; rewrite ?Ho, ?Hc, ?Hp, ?Ht.
  - by rewrite length_insert.
  - done.
  - intros k r. case_bool_decide; [|by auto].
    intros [Hin _]%elem_of_map_delete. auto.
  - case_bool_decide; [|done]. by apply map_delete_NoDup.
  - intros t [Hin|Hin%elem_of_notifications]%elem_of_app; [by auto | by subst].
  - rewrite omap_app, omap_checker_of_notifications. by rewrite app_nil_r.
  - intros k r Hin.
    assert ((k, r) ∈ players st /\ (r = this -> False)) as [Hin' Hne].
    { revert Hin. case_bool_decide as Hreg.
      - intros [Hin Hk']%elem_of_map_delete. split; [done|]. intros ->.
        destruct (Hk k this Hin) as [_ Hid]. simpl in Hk'. congruence.
      - intros Hin. split; [done|]. intros ->.
        destruct (Hk k this Hin) as [_ Hid]. apply Hreg. rewrite Hid.
        by apply map_get_unique. }
    rewrite list_lookup_total_insert_ne by (intros ->; tauto). eauto.
  - intros c. rewrite length_insert. intros Hlt.
    destruct (decide (c = this)) as [->|Hne].
    + by rewrite list_lookup_total_insert_eq.
    + rewrite list_lookup_total_insert_ne by done. auto.
  - intros r Hr. destruct (decide (r = this)) as [->|Hne].
    + rewrite list_lookup_total_insert_eq by lia. cbn [peer]. auto.
    + rewrite list_lookup_total_insert_ne by done. auto.
Qed.

Lemma closing_wf this st : this < length (objs st) -> wf st -> wf (closing this st).
Proof.
  intros Hthis Hwf. apply (wf_closing this st); try done.
  - apply closing_objs.
  - exists 0. rewrite closing_timers. by rewrite app_nil_r.
Qed.

Lemma close_wf this st :
  this < length (objs st) -> wf st -> wf (state_of (close this st)).
Proof.
  intros Hthis Hwf. apply (wf_closing this st); try done.
  - apply close_objs.
  - by rewrite close_conns, closing_conns.
  - by rewrite close_players, closing_players.
  - destruct (close_timers this st) as (n & _ & Ht). eauto.
Qed.

(** A session whose connection is not open is not in the Map. *)
Lemma not_open_unregistered this st :
  wf st -> this < length (objs st) ->
  is_open (conns st !!! this) = false ->
  map_get (id (objs st !!! this)) (players st) ≠ Some this.
Proof.
  intros Hwf Hthis Hopen Hget%map_get_elem_of.
  apply (wf_open _ Hwf) in Hget. congruence.
Qed.

Section Invariant.

Variable JSON_parse : value -> option value.
Variable JSON_stringify : value -> value.

Lemma updateClient_keeps this st : keeps st (updateClient JSON_stringify this st).
Proof. rewrite updateClient_eq. apply connection_send_keeps. Qed.

Lemma _sendEventToAll_keeps this name payload skipStringify st :
  keeps st (_sendEventToAll JSON_stringify this name payload skipStringify st).
Proof. rewrite _sendEventToAll_eq. apply set_sent_keeps. Qed.

(** Whatever the message, and whether it returns or throws, [onUpdate]
    leaves the Map, the connections and the timers alone. *)
Lemma onUpdate_keeps this e st :
  keeps st (state_of (onUpdate JSON_parse JSON_stringify this e st)).
Proof.
  unfold onUpdate.
  destruct (is_undefined e); [apply keeps_refl|].
  destruct (get e "eventName") as [eventName|]; [|apply keeps_refl].
  destruct (is_undefined eventName); [apply keeps_refl|].
  destruct (get e "data") as [e_data|]; [|apply keeps_refl].
  destruct (JSON_parse e_data) as [data|]; [|apply keeps_refl].
  destruct (is_string eventName "update").
  - destruct (is_undefined data); [apply keeps_refl|].
    destruct (get data "x") as [data_x|]; [|apply keeps_refl].
    pose proof (assign_x_keeps this (js_or data_x zero) st) as H1.
    destruct (get data "y") as [data_y|]; [|exact H1].
    pose proof (keeps_trans _ _ _ H1
      (assign_y_keeps this (js_or data_y zero) _)) as H2.
    destruct (get data "animation") as [data_animation|]; [|exact H2].
    pose proof (keeps_trans _ _ _ H2
      (assign_animation_keeps this (js_or data_animation zero) _)) as H3.
    pose proof (keeps_trans _ _ _ H3 (updateClient_keeps this _)) as H4.
    pose proof (keeps_trans _ _ _ H4 (redrawn_keeps _)) as H5.
    rewrite updateList_eq. destruct (list_draws _); [|exact H5].
    destruct (is_string eventName "flip"); [|exact H5].
    exact (keeps_trans _ _ _ H5 (assign_flip_keeps this data _)).
  - destruct (is_string eventName "flip"); [|apply keeps_refl].
    apply assign_flip_keeps.
Qed.

Lemma disconnectChecker_wf player st :
  player < length (objs st) ->
  player ∉ omap checker_of (timers st) ->
  wf st -> wf (state_of (disconnectChecker player st)).
Proof.
  intros Hplayer Hfresh Hwf. rewrite disconnectChecker_eq.
  destruct (peerConnection _); [|done].
  case_bool_decide; [by apply close_wf|].
  destruct Hwf as [Ha Hco Hk Hn Hti Hch Hop Hcl Hpe]. split; simpl; try done.
  - intros t [Hin| ->%list_elem_of_singleton]%elem_of_app; auto.
  - rewrite omap_app. simpl. apply NoDup_app. split_and!; [done | | apply NoDup_singleton].
    intros r Hr ->%list_elem_of_singleton. done.
Qed.

Lemma task_ref_checker r (q : list task) :
  r ∈ omap checker_of q -> Checker r ∈ q.
Proof.
  intros (t & Hin & Ht)%list_elem_of_omap.
  destruct t; simpl in Ht; by simplify_eq.
Qed.

(** The stores after the constructor has taken hold of the connection. *)
Lemma admitted_wf connection st :
  (closed connection = true <-> peerConnection connection = None) ->
  wf st -> wf (admitted connection st).
Proof.
  intros Hconn [Ha Hco Hk Hn Hti Hch Hop Hcl Hpe]. split; simpl.
  - rewrite !length_app. simpl. lia.
  - intros r. rewrite length_app. simpl. intros Hr.
    destruct (decide (r < length (objs st))) as [Hlt|Hge].
    + rewrite lookup_total_app_l by done. auto.
    + assert (r = length (objs st)) as -> by lia.
      rewrite list_lookup_total_middle by done. simpl. done.
  - intros k r Hin. destruct (Hk k r Hin) as [Hlt Hid].
    rewrite length_app, lookup_total_app_l by done. split; [lia | done].
  - done.
  - intros t Hin. rewrite length_app. specialize (Hti t Hin). lia.
  - done.
  - intros k r Hin. destruct (Hk k r Hin) as [Hlt _].
    rewrite lookup_total_app_l by lia. eauto.
  - intros c. rewrite length_app. simpl. intros Hc.
    destruct (decide (c < length (conns st))) as [Hlt|Hge].
    + rewrite lookup_total_app_l by done. auto.
    + assert (c = length (conns st)) as -> by lia.
      by rewrite list_lookup_total_middle.
  - intros r. rewrite length_app. simpl. intros Hr.
    destruct (decide (r < length (objs st))) as [Hlt|Hge].
    + rewrite !lookup_total_app_l by lia. auto.
    + assert (r = length (objs st)) as -> by lia.
      rewrite list_lookup_total_middle by done.
      by rewrite <- Ha, list_lookup_total_middle.
Qed.

Lemma new_Player_wf connection st :
  (closed connection = true <-> peerConnection connection = None) ->
  wf st -> wf (state_of (new_Player connection st)).
Proof.
  intros Hconn Hwf. unfold new_Player. cbv zeta.
  pose proof (admitted_wf connection st Hconn Hwf) as Hwf1.
  fold (admitted connection st). set (st1 := admitted connection st) in *.
  assert (length (objs st1) = S (length (objs st))) as Hlen.
  { subst st1. simpl. rewrite length_app. simpl. lia. }
  assert (timers st1 = timers st) as Ht1 by done.
  apply state_of_bind.
  - destruct (map_get _ _) as [previous|] eqn:Hget; [|done].
    apply close_wf; [|done].
    apply map_get_elem_of in Hget. by apply (wf_key _ Hwf1) in Hget as [? _].
  - intros s Hs.
    assert (objs s = objs st1 /\ exists n r, timers s = timers st1 ++ replicate n (SendDisconnected r))
      as [Ho (n & r & Ht)].
    { destruct (map_get _ _) as [previous|].
      - pose proof (close_objs previous st1) as Ho.
        destruct (close_timers previous st1) as (n & _ & Ht).
        rewrite Hs in Ho, Ht. eauto.
      - injection Hs as <-. split; [done|]. exists 0, 0. by rewrite app_nil_r. }
    assert (wf s) as Hwfs.
    { destruct (map_get _ _) as [previous|] eqn:Hget.
      - pose proof (close_wf previous st1) as Hc. rewrite Hs in Hc. apply Hc; [|done].
        apply map_get_elem_of in Hget. by apply (wf_key _ Hwf1) in Hget as [? _].
      - by injection Hs as <-. }
    apply disconnectChecker_wf; [rewrite Ho; lia | | done].
    intros Hin%task_ref_checker. rewrite Ht, Ht1 in Hin.
    apply elem_of_app in Hin as [Hin|Hin%elem_of_notifications]; [|done].
    apply (wf_timer _ Hwf) in Hin. simpl in Hin. lia.
Qed.

Lemma peer_on_connection_wf connection st :
  (closed connection = true <-> peerConnection connection = None) ->
  wf st -> wf (state_of (peer_on_connection connection st)).
Proof.
  intros Hconn Hwf. unfold peer_on_connection. cbv zeta.
  apply state_of_bind.
  - destruct (map_get _ _) as [previous|] eqn:Hget; [|done].
    apply close_wf; [|done].
    apply map_get_elem_of in Hget. by apply (wf_key _ Hwf) in Hget as [? _].
  - intros s Hs. apply new_Player_wf; [done|].
    destruct (map_get _ _) as [previous|] eqn:Hget.
    + pose proof (close_wf previous st) as Hc. rewrite Hs in Hc. apply Hc; [|done].
      apply map_get_elem_of in Hget. by apply (wf_key _ Hwf) in Hget as [? _].
    + by injection Hs as <-.
Qed.

Lemma on_close_wf this st :
  this < length (objs st) -> wf st -> wf (state_of (on_close this st)).
Proof.
  intros Hthis Hwf. apply (wf_closing this st); try done;
    rewrite on_close_eq; cbv zeta; destruct (list_draws _); simpl;
    rewrite ?closing_objs, ?closing_timers; try done.
  - by exists 1.
  - exists 0. by rewrite app_nil_r.
Qed.

(** The close event: PeerJS closes the connection, and the close handler
    runs if the connection was open. *)
Lemma close_event_eq this st :
  wf st -> this < length (objs st) ->
  connection_close (_c (objs st !!! this)) (on_close this) st =
  if is_open (conns st !!! this) then on_close this st
  else Return (closing this st).
Proof.
  intros Hwf Hthis. rewrite (wf_conn _ Hwf) by done.
  destruct (is_open (conns st !!! this)) eqn:Hopen.
  - rewrite connection_close_open by done.
    rewrite !on_close_eq. cbv zeta. unfold disconnected_line.
    pose proof (closing_cleanup this st) as Hcc.
    rewrite (wf_conn _ Hwf) in Hcc by done. by rewrite Hcc.
  - rewrite connection_close_not_open by done. f_equal.
    unfold closing, unregister. rewrite (wf_conn _ Hwf) by done.
    rewrite bool_decide_eq_false_2; [done|].
    exact (not_open_unregistered this st Hwf Hthis Hopen).
Qed.

Lemma close_event_wf this st :
  this < length (objs st) -> wf st ->
  wf (state_of (connection_close (_c (objs st !!! this)) (on_close this) st)).
Proof.
  intros Hthis Hwf. rewrite close_event_eq by done.
  destruct (is_open _); [by apply on_close_wf | by apply closing_wf].
Qed.

Lemma on_error_wf this error st :
  this < length (objs st) -> wf st -> wf (state_of (on_error this error st)).
Proof.
  intros Hthis Hwf. unfold on_error. apply state_of_bind.
  - by apply close_wf.
  - intros s Hs. simpl. eapply wf_keeps; [apply log_keeps|].
    apply wf_delete. pose proof (close_wf this st Hthis Hwf) as Hc.
    by rewrite Hs in Hc.
Qed.

Lemma opened_wf this st :
  this < length (objs st) -> wf st ->
  wf (set_players (map_set (id (objs st !!! this)) this)
        (set_conns (fun cs =>
           <[this := mkConnection (peer (cs !!! this)) (closed (cs !!! this)) true
                       (peerConnection (cs !!! this))]> cs) st)).
Proof.
  intros Hthis [Ha Hco Hk Hn Hti Hch Hop Hcl Hpe]. split; simpl; try done.
  - by rewrite length_insert.
  - intros k r [[= -> ->]|Hin]%elem_of_map_set; auto.
  - by apply map_set_NoDup.
  - intros k r Hin. destruct (decide (r = this)) as [->|Hne].
    + by rewrite list_lookup_total_insert_eq by lia.
    + rewrite list_lookup_total_insert_ne by done.
      apply elem_of_map_set in Hin as [[= -> ->]|Hin]; [done | eauto].
  - intros c. rewrite length_insert. intros Hc.
    destruct (decide (c = this)) as [->|Hne].
    + rewrite list_lookup_total_insert_eq by lia. simpl. auto.
    + rewrite list_lookup_total_insert_ne by done. auto.
  - intros r Hr. rewrite list_insert_lookup_total.
    case_bool_decide as Hcase; [|by auto].
    destruct Hcase as [-> _]. cbn [peer]. auto.
Qed.

Lemma open_event_wf this st :
  this < length (objs st) -> wf st ->
  wf (state_of (on_open this
        (set_conns (fun cs =>
           let c := _c (objs st !!! this) in
           <[c := mkConnection (peer (cs !!! c)) (closed (cs !!! c)) true
                    (peerConnection (cs !!! c))]> cs) st))).
Proof.
  intros Hthis Hwf. unfold on_open. cbv zeta. rewrite updateList_state.
  eapply wf_keeps; [apply redrawn_keeps|].
  eapply wf_keeps; [|apply (opened_wf this st Hthis Hwf)].
  cbn. rewrite (wf_conn _ Hwf) by done. repeat split.
Qed.

Lemma run_task_wf t st :
  task_ref t < length (objs st) ->
  (forall player, t = Checker player -> player ∉ omap checker_of (timers st)) ->
  wf st -> wf (state_of (run_task JSON_stringify t st)).
Proof.
  intros Ht Hfresh Hwf. destruct t as [player|this]; simpl.
  - apply disconnectChecker_wf; auto.
  - eapply wf_keeps; [apply _sendEventToAll_keeps | done].
Qed.

Lemma step_wf st ev :
  wf st -> wf (step JSON_parse JSON_stringify st ev).
Proof.
  intros Hwf. unfold step. destruct ev; cbn [handle].
  - eapply wf_keeps; [apply log_keeps | done].
  - eapply wf_keeps; [apply log_keeps | done].
  - by apply peer_on_connection_wf.
  - case_bool_decide; [by apply open_event_wf | done].
  - case_bool_decide; [by apply close_event_wf | done].
  - case_bool_decide; [by apply on_error_wf | done].
  - destruct (_ && _); [|done].
    eapply wf_keeps; [apply onUpdate_keeps | done].
  - destruct (timers st) as [|t rest] eqn:Hq; [done|].
    destruct Hwf as [Ha Hco Hk Hn Hti Hch Hop Hcl Hpe]. rewrite Hq in Hti, Hch.
    apply run_task_wf; simpl.
    + apply Hti, list_elem_of_here.
    + intros player ->. simpl in Hch. by apply NoDup_cons in Hch as [? _].
    + split; simpl; try done.
      * intros t' Hin. by apply Hti, list_elem_of_further.
      * destruct t; simpl in Hch; [by apply NoDup_cons in Hch as [_ ?] | done].
  - destruct Hwf as [Ha Hco Hk Hn Hti Hch Hop Hcl Hpe]. cbn [state_of].
    unfold set_conns. cbv beta.
    destruct (peerConnection (conns st !!! connection)) eqn:Hpc;
      [|by split]. split; simpl; try done.
    + by rewrite length_insert.
    + intros k r Hin. destruct (decide (r = connection)) as [->|Hne].
      * destruct (Hk k connection Hin) as [Hlt _].
        rewrite list_lookup_total_insert_eq by lia. simpl. eauto.
      * rewrite list_lookup_total_insert_ne by done. eauto.
    + intros c. rewrite length_insert. intros Hc.
      destruct (decide (c = connection)) as [->|Hne].
      * rewrite list_lookup_total_insert_eq by lia. simpl.
        specialize (Hcl connection Hc). rewrite Hpc in Hcl.
        split; [|done]. intros Hclosed. by apply Hcl in Hclosed.
      * rewrite list_lookup_total_insert_ne by done. auto.
    + intros r Hr. rewrite list_insert_lookup_total.
      case_bool_decide as Hcase; [|by auto].
      destruct Hcase as [-> _]. cbn [peer]. auto.
Qed.

Lemma init_wf : wf init.
Proof.
  split; simpl; try done; try apply NoDup_nil_2.
  - intros r Hr. lia.
  - intros k r Hin. by apply elem_of_nil in Hin.
  - intros t Hin. by apply elem_of_nil in Hin.
  - intros k r Hin. by apply elem_of_nil in Hin.
  - intros c Hc. lia.
Qed.

Lemma reachable_wf st :
  reachable JSON_parse JSON_stringify st -> wf st.
Proof. induction 1; [apply init_wf | by apply step_wf]. Qed.

Lemma reachable_run st evs :
  reachable JSON_parse JSON_stringify st ->
  reachable JSON_parse JSON_stringify (run JSON_parse JSON_stringify st evs).
Proof.
  revert st. induction evs as [|ev evs IH]; intros st Hst; [done|].
  simpl. apply IH. by constructor.
Qed.

End Invariant.

(** ** The arrival of a connection *)

Lemma map_set_absent k v (m : list (string * ref)) :
  map_get k m = None -> map_set k v m = m ++ [(k, v)].
Proof.
  induction m as [|[k' v'] m IH]; simpl; [done|].
  destruct (String.eqb_spec k' k); [done|]. intros H. by rewrite IH.
Qed.

Lemma map_delete_absent k (m : list (string * ref)) :
  map_get k m = None -> map_delete k m = m.
Proof.
  induction m as [|[k' v'] m IH]; simpl; [done|].
  destruct (String.eqb_spec k' k); [done|]. intros H. by rewrite IH.
Qed.

Lemma map_delete_idemp k (m : list (string * ref)) :
  map_delete k (map_delete k m) = map_delete k m.
Proof. apply map_delete_absent, map_get_delete_eq. Qed.

Lemma map_delete_length k v (m : list (string * ref)) :
  NoDup m.*1 -> map_get k m = Some v ->
  S (length (map_delete k m)) = length m.
Proof.
  induction m as [|[k' v'] m IH]; simpl; [done|].
  intros [Hk' Hnd]%NoDup_cons.
  destruct (String.eqb_spec k' k) as [->|Hne].
  - intros _. rewrite map_delete_absent; [done|]. by apply map_get_None.
  - intros Hget. simpl. by rewrite IH.
Qed.

Lemma close_get_other this st k :
  k ≠ id (objs st !!! this) ->
  map_get k (players (state_of (close this st))) = map_get k (players st).
Proof.
  intros Hne. rewrite close_players. case_bool_decide; [|done].
  by apply map_get_delete_ne.
Qed.

(** The x and y the list renders are those of sessions in the Map: a new
    Player does not change what is drawn. *)
Lemma draws_ext os os' (m : list (string * ref)) :
  (forall e, e ∈ m -> x (os' !!! e.2) = x (os !!! e.2) /\ y (os' !!! e.2) = y (os !!! e.2)) ->
  draws os' m = draws os m.
Proof.
  induction m as [|e m IH]; intros Hext; [done|]. simpl.
  destruct (Hext e (list_elem_of_here _ _)) as [-> ->].
  rewrite IH; [done|]. intros e' He'. by apply Hext, list_elem_of_further.
Qed.

Lemma draw_ext os os' (m : list (string * ref)) drawn :
  (forall e, e ∈ m -> x (os' !!! e.2) = x (os !!! e.2) /\ y (os' !!! e.2) = y (os !!! e.2)) ->
  draw os' m drawn = draw os m drawn.
Proof.
  revert drawn. induction m as [|[c player] m IH]; intros drawn Hext; [done|]. simpl.
  destruct (Hext (c, player) (list_elem_of_here _ _)) as [Hx Hy].
  cbn [snd] in Hx, Hy. rewrite Hx, Hy.
  destruct (printable (x (os !!! player))); [|done].
  destruct (printable (y (os !!! player))); [|done].
  apply IH. intros e' He'. by apply Hext, list_elem_of_further.
Qed.

Lemma admitted_new connection st :
  objs (admitted connection st) !!! length (objs st) =
  mkPlayer (length (conns st)) (peer connection) zero zero zero zero.
Proof. unfold admitted. simpl. by rewrite list_lookup_total_middle. Qed.

Lemma admitted_connection connection st :
  conns (admitted connection st) !!! length (conns st) = connection.
Proof. unfold admitted. simpl. by rewrite list_lookup_total_middle. Qed.

Lemma admitted_old_connection connection st c :
  c < length (conns st) -> conns (admitted connection st) !!! c = conns st !!! c.
Proof. intros Hc. unfold admitted. simpl. by rewrite lookup_total_app_l. Qed.

Lemma admitted_old_player connection st r :
  r < length (objs st) -> objs (admitted connection st) !!! r = objs st !!! r.
Proof. intros Hr. unfold admitted. simpl. by rewrite lookup_total_app_l. Qed.

Lemma admitted_list_draws connection st :
  wf st -> list_draws (admitted connection st) = list_draws st.
Proof.
  intros Hwf. unfold list_draws. apply draws_ext. intros [k r] Hin.
  apply (wf_key _ Hwf) in Hin as [Hr _].
  cbn [snd]. by rewrite admitted_old_player.
Qed.

(** The constructor, when the Map has no entry under the peer id (its
    own test of the Map then finds nothing to close). *)
Lemma new_Player_eq connection st :
  map_get (peer connection) (players st) = None ->
  new_Player connection st =
  disconnectChecker (length (objs st)) (admitted connection st).
Proof.
  intros Hget. unfold new_Player. cbv zeta. fold (admitted connection st).
  rewrite admitted_new. cbn [id].
  change (players (admitted connection st)) with (players st).
  by rewrite Hget.
Qed.

(** The first check of a new Player finds the status the connection
    arrived with. *)
Lemma first_check_eq peer_id status st :
  disconnectChecker (length (objs st)) (admitted (arriving peer_id status) st) =
  if bool_decide (status = "failed" \/ status = "disconnected")
  then close (length (objs st)) (admitted (arriving peer_id status) st)
  else Return (setTimeout (Checker (length (objs st)))
                 (admitted (arriving peer_id status) st)).
Proof.
  rewrite disconnectChecker_eq, admitted_new. cbn [_c].
  by rewrite admitted_connection.
Qed.

(** The close of a new Player, which is not in the Map yet and whose
    connection is not open, goes through if the list can be drawn. *)
Lemma first_close_eq peer_id status st :
  wf st -> map_get peer_id (players st) = None ->
  let new := length (objs st) in
  let s := admitted (arriving peer_id status) st in
  close new s =
  if list_draws st
  then Return (setTimeout (SendDisconnected new) (redrawn (cleanup new s)))
  else Throw TypeError (redrawn (cleanup new s)).
Proof.
  intros Hwf Hget new s. rewrite close_eq. cbv zeta.
  assert (_c (objs s !!! new) = new) as Hc.
  { subst s new. rewrite admitted_new. cbn [_c]. apply (wf_alloc _ Hwf). }
  assert (closing new s = cleanup new s) as ->.
  { unfold closing, unregister. rewrite Hc.
    rewrite bool_decide_eq_false_2; [done|].
    subst s new. cbn [objs cleanup set_conns]. rewrite admitted_new. cbn [id].
    change (map_get peer_id (players st) ≠ Some (length (objs st))).
    by rewrite Hget. }
  assert (list_draws (cleanup new s) = list_draws st) as ->
    by (subst s; exact (admitted_list_draws _ st Hwf)).
  rewrite Hc.
  assert (is_open (conns s !!! new) = false) as ->; [|done].
  subst s new. rewrite <- (wf_alloc _ Hwf). by rewrite admitted_connection.
Qed.

Section Admission.

Variable JSON_parse : value -> option value.
Variable JSON_stringify : value -> value.

(** The arrival of a connection.  If the Map has an entry under the peer
    id, the session found there is closed first, and the Player of the
    connection is constructed only if that [close] returns. *)
Lemma admission_eq st peer_id status :
  wf st ->
  handle JSON_parse JSON_stringify st (Connection_ peer_id status) =
  match map_get peer_id (players st) with
  | Some previous =>
      s <~ close previous st ;;
      disconnectChecker (length (objs st)) (admitted (arriving peer_id status) s)
  | None => disconnectChecker (length (objs st)) (admitted (arriving peer_id status) st)
  end.
Proof.
  intros Hwf. cbn [handle]. fold (arriving peer_id status).
  unfold peer_on_connection. cbv zeta. cbn [peer arriving].
  destruct (map_get peer_id (players st)) as [previous|] eqn:Hget.
  - destruct (close previous st) as [s|err s] eqn:Hclose; [|done]. cbn [bind].
    pose proof (close_players previous st) as Hp.
    pose proof (close_objs previous st) as Ho.
    rewrite Hclose in Hp, Ho. cbn [state_of] in Hp, Ho.
    destruct (wf_key _ Hwf _ _ (map_get_elem_of _ _ _ Hget)) as [_ Hid].
    rewrite Hid, Hget, bool_decide_eq_true_2 in Hp by done.
    rewrite new_Player_eq; [by rewrite Ho|].
    cbn [peer arriving]. rewrite Hp. apply map_get_delete_eq.
  - cbn [bind]. by rewrite new_Player_eq.
Qed.

Lemma admission_cases st peer_id status :
  wf st ->
  let st' := step JSON_parse JSON_stringify st (Connection_ peer_id status) in
  if admission_aborts peer_id st
  then exists previous,
         map_get peer_id (players st) = Some previous /\
         handle JSON_parse JSON_stringify st (Connection_ peer_id status) =
           Throw TypeError (redrawn (closing previous st)) /\
         st' = redrawn (closing previous st)
  else st' = state_of (disconnectChecker (length (objs st))
                         (before_first_check peer_id status st)).
Proof.
  intros Hwf st'. subst st'. unfold step, admission_aborts, before_first_check.
  rewrite admission_eq by done.
  destruct (map_get peer_id (players st)) as [previous|] eqn:Hget; [|done].
  rewrite close_eq. cbv zeta.
  destruct (list_draws (closing previous st)); [done|]. simpl.
  exists previous. by split_and!.
Qed.

(** What the state before the first check is made of. *)
Lemma before_first_check_state st peer_id status :
  wf st ->
  let s := before_first_check peer_id status st in
  let new := length (objs st) in
  wf s /\
  objs s = objs st ++ [mkPlayer (length (conns st)) peer_id zero zero zero zero] /\
  players s = map_delete peer_id (players st) /\
  sent s = sent st /\
  length (conns s) = S (length (conns st)) /\
  conns s !!! new = arriving peer_id status /\
  (forall c, c < length (conns st) ->
     conns s !!! c =
     if bool_decide (map_get peer_id (players st) = Some c)
     then mkConnection (peer (conns st !!! c)) true false None
     else conns st !!! c) /\
  (forall t, t ∈ timers s -> t ∈ timers st \/ exists r, t = SendDisconnected r).
Proof.
  intros Hwf s new. subst s new. unfold before_first_check.
  pose proof (wf_alloc _ Hwf) as Hlen.
  destruct (map_get peer_id (players st)) as [previous|] eqn:Hget.
  - destruct (wf_key _ Hwf _ _ (map_get_elem_of _ _ _ Hget)) as [Hprev Hid].
    pose proof (wf_conn _ Hwf previous Hprev) as Hc.
    pose proof (close_wf previous st Hprev Hwf) as Hwf1.
    set (s1 := state_of (close previous st)) in *.
    assert (objs s1 = objs st) as Ho1 by apply close_objs.
    assert (conns s1 = <[previous := mkConnection (peer (conns st !!! previous))
                           true false None]> (conns st)) as Hc1
      by (subst s1; by rewrite close_conns, Hc).
    assert (length (conns s1) = length (conns st)) as Hl1
      by (by rewrite Hc1, length_insert).
    split_and!.
    + by apply admitted_wf.
    + unfold admitted. simpl. by rewrite Ho1, Hl1.
    + change (players (admitted _ s1)) with (players s1). subst s1.
      rewrite close_players_registered; rewrite Hid; done.
    + change (sent (admitted _ s1)) with (sent s1). apply close_sent.
    + unfold admitted. simpl. rewrite length_app, Hl1. simpl. lia.
    + rewrite <- Hlen, <- Hl1. apply admitted_connection.
    + intros c Hlt. rewrite admitted_old_connection by lia. rewrite Hc1.
      case_bool_decide as Hcase.
      * simplify_eq. by rewrite list_lookup_total_insert_eq by lia.
      * rewrite list_lookup_total_insert_ne; [done | congruence].
    + intros t. change (timers (admitted _ s1)) with (timers s1).
      destruct (close_timers previous st) as (n & _ & Ht). fold s1 in Ht. rewrite Ht.
      intros [Hin|Hin%elem_of_notifications]%elem_of_app; [by left | right; eauto].
  - split_and!; try done.
    + by apply admitted_wf.
    + symmetry. change (players _) with (players st). by apply map_delete_absent.
    + unfold admitted. simpl. rewrite length_app. simpl. lia.
    + rewrite <- Hlen. apply admitted_connection.
    + intros c Hlt. rewrite admitted_old_connection by lia.
      by rewrite bool_decide_eq_false_2.
    + intros t Hin. by left.
Qed.

(** What the arrival of a connection leaves, whether it is aborted or
    not: the entry under the peer id is gone, its connection torn down,
    no other connection that existed is touched, nothing is sent. *)
Lemma admission_state st peer_id status :
  wf st ->
  let st' := step JSON_parse JSON_stringify st (Connection_ peer_id status) in
  players st' = map_delete peer_id (players st) /\
  sent st' = sent st /\
  (forall c, c < length (conns st) ->
     conns st' !!! c =
     if bool_decide (map_get peer_id (players st) = Some c)
     then mkConnection (peer (conns st !!! c)) true false None
     else conns st !!! c) /\
  if admission_aborts peer_id st
  then objs st' = objs st /\ length (conns st') = length (conns st) /\
       timers st' = timers st
  else objs st' = objs st ++ [mkPlayer (length (conns st)) peer_id zero zero zero zero] /\
       length (conns st') = S (length (conns st)).
Proof.
  intros Hwf st'.
  pose proof (admission_cases st peer_id status Hwf) as Hcases. fold st' in Hcases.
  pose proof (wf_alloc _ Hwf) as Hlen.
  destruct (admission_aborts peer_id st).
  - destruct Hcases as (previous & Hget & _ & ->).
    destruct (wf_key _ Hwf _ _ (map_get_elem_of _ _ _ Hget)) as [Hprev Hid].
    pose proof (wf_conn _ Hwf previous Hprev) as Hc.
    cbn [redrawn set_list_ui players sent conns objs timers].
    rewrite closing_players, closing_sent, closing_conns, closing_objs, closing_timers.
    rewrite Hid, Hc, Hget, bool_decide_eq_true_2 by done.
    split_and!; try done; [|by rewrite length_insert].
    intros c Hlt. case_bool_decide as Hcase.
    + simplify_eq. by rewrite list_lookup_total_insert_eq by lia.
    + rewrite list_lookup_total_insert_ne; [done | congruence].
  - destruct (before_first_check_state st peer_id status Hwf)
      as (Hwfs & Ho & Hp & Hs & Hl & Hnew & Hold & _).
    set (s := before_first_check peer_id status st) in *.
    assert (objs s !!! length (objs st) =
            mkPlayer (length (conns st)) peer_id zero zero zero zero) as Hme
      by (by rewrite Ho, list_lookup_total_middle).
    rewrite Hcases. split_and!.
    + rewrite disconnectChecker_players_unregistered; [done|].
      rewrite Hme, Hp. cbn [id]. by rewrite map_get_delete_eq.
    + by rewrite disconnectChecker_sent.
    + intros c Hlt. rewrite disconnectChecker_conns_other; [by apply Hold|].
      rewrite Hme. cbn [_c]. lia.
    + by rewrite disconnectChecker_objs.
    + by rewrite disconnectChecker_length_conns.
Qed.

End Admission.

(** ** The registry *)

Section Registry.

Variable JSON_parse : value -> option value.
Variable JSON_stringify : value -> value.

(** C10.  Registry key consistency: in every reachable state, every entry
    of the Map sits under the id of the session it holds, so the key of
    an entry and the id of its session are the same string. *)
Theorem registry_key_consistency st :
  reachable JSON_parse JSON_stringify st ->
  forall k r, (k, r) ∈ players st ->
    exists p, objs st !! r = Some p /\ id p = k.
Proof.
  intros Hst%reachable_wf k r Hin.
  destruct (wf_key _ Hst k r Hin) as [Hlt Hid].
  exists (objs st !!! r). split; [|done].
  by apply list_lookup_lookup_total_lt.
Qed.

(** C1.  In every reachable state the Map holds at most one session
    under any identity [i].  When a connection arrives for an identity
    that is in the Map, [close] is called on the session found there
    first: its connection is closed and its entry removed (no other
    connection that existed is touched), and after the event the Map has
    no entry under the identity.  If that [close] returns, the Player of
    the new connection is constructed, outside the Map, and its open
    event puts it there; if [close] ends with the TypeError of
    [updateList], the handler ends with it and no Player is constructed. *)
Theorem one_session_per_identity st :
  reachable JSON_parse JSON_stringify st ->
  (forall i, length (filter (fun e => e.1 = i) (players st)) <= 1) /\
  (forall peer_id status previous,
     map_get peer_id (players st) = Some previous ->
     let st' := step JSON_parse JSON_stringify st (Connection_ peer_id status) in
     let new := length (objs st) in
     closed (conns st' !!! _c (objs st !!! previous)) = true /\
     (forall c, c < length (conns st) -> c ≠ _c (objs st !!! previous) ->
        conns st' !!! c = conns st !!! c) /\
     players st' = map_delete peer_id (players st) /\
     map_get peer_id (players st') = None /\
     if list_draws (closing previous st)
     then objs st' !! new = Some (mkPlayer (length (conns st)) peer_id zero zero zero zero) /\
          map_get peer_id (players (step JSON_parse JSON_stringify st' (Open new))) = Some new
     else handle JSON_parse JSON_stringify st (Connection_ peer_id status) =
            Throw TypeError st' /\
          objs st' = objs st).
Proof.
  intros Hst%reachable_wf. split.
  - intros i. apply NoDup_keys_at_most_one, Hst.
  - intros peer_id status previous Hget st' new.
    destruct (wf_key _ Hst _ _ (map_get_elem_of _ _ _ Hget)) as [Hprev Hid].
    pose proof (wf_conn _ Hst previous Hprev) as Hc.
    pose proof (wf_alloc _ Hst) as Hlen.
    destruct (admission_state JSON_parse JSON_stringify st peer_id status Hst)
      as (Hp & _ & Hold & Hnew).
    pose proof (admission_cases JSON_parse JSON_stringify st peer_id status Hst) as Hcases.
    fold st' in Hp, Hold, Hnew, Hcases.
    unfold admission_aborts in Hnew, Hcases. rewrite Hget in Hnew, Hcases.
    rewrite Hc. split_and!.
    + rewrite Hold by lia. by rewrite bool_decide_eq_true_2.
    + intros c Hlt Hne. rewrite Hold by done.
      rewrite bool_decide_eq_false_2; [done | congruence].
    + done.
    + rewrite Hp. apply map_get_delete_eq.
    + destruct (list_draws (closing previous st)); cbn [negb] in *.
      * destruct Hnew as [Ho _]. split.
        -- rewrite Ho. subst new. by rewrite list_lookup_middle.
        -- unfold step at 1. cbn [handle]. rewrite bool_decide_eq_true_2.
           ++ unfold on_open. cbv zeta. rewrite updateList_state.
              cbn [redrawn set_list_ui players set_players log set_logger objs set_conns].
              rewrite Ho. subst new. rewrite list_lookup_total_middle by done.
              cbn [id]. apply map_get_set_eq.
           ++ rewrite Ho, length_app. simpl. subst new. lia.
      * destruct Hcases as (previous' & Hget' & Hthrow & Hst').
        simplify_eq. split; [by rewrite Hthrow, Hst' | by destruct Hnew].
Qed.

End Registry.
(** ** Reading the fields after an assignment *)

Lemma insert_lookup_total (os : list Player) this me' r :
  <[this := me']> os !!! r =
  if bool_decide (r = this /\ this < length os) then me' else os !!! r.
Proof.
  case_bool_decide as Hcase.
  - destruct Hcase as [-> Hlt]. by rewrite list_lookup_total_insert_eq.
  - destruct (decide (this < length os)) as [Hlt|Hge].
    + rewrite list_lookup_total_insert_ne; [done | intros ->; tauto].
    + by rewrite list_insert_ge by lia.
Qed.

Ltac field_after_assignment :=
  intros;
  unfold assign_x, assign_y, assign_animation, assign_flip, set_objs;
  cbn [objs]; cbv zeta; rewrite insert_lookup_total;
  let Hcase := fresh "Hcase" in
  case_bool_decide as Hcase; [destruct Hcase as [? ?]; subst | ]; try done;
  try (exfalso; tauto).

Lemma assign_x_x this v st :
  this < length (objs st) -> x (objs (assign_x this v st) !!! this) = v.
Proof. field_after_assignment. Qed.

Lemma assign_y_x this v st r :
  x (objs (assign_y this v st) !!! r) = x (objs st !!! r).
Proof. field_after_assignment. Qed.

Lemma assign_animation_x this v st r :
  x (objs (assign_animation this v st) !!! r) = x (objs st !!! r).
Proof. field_after_assignment. Qed.

Lemma assign_flip_x this v st r :
  x (objs (assign_flip this v st) !!! r) = x (objs st !!! r).
Proof. field_after_assignment. Qed.

Lemma assign_flip_y this v st r :
  y (objs (assign_flip this v st) !!! r) = y (objs st !!! r).
Proof. field_after_assignment. Qed.

Lemma assign_flip_animation this v st r :
  animation (objs (assign_flip this v st) !!! r) = animation (objs st !!! r).
Proof. field_after_assignment. Qed.

Lemma assign_flip_flip this v st :
  this < length (objs st) -> flip (objs (assign_flip this v st) !!! this) = v.
Proof. field_after_assignment. Qed.

Lemma assign_flip_other this v st r :
  r ≠ this -> objs (assign_flip this v st) !!! r = objs st !!! r.
Proof. field_after_assignment. Qed.

Lemma filter_ext_elem {A} (P Q : A -> Prop) `{!forall a, Decision (P a)}
    `{!forall a, Decision (Q a)} (l : list A) :
  (forall a, a ∈ l -> P a <-> Q a) -> filter P l = filter Q l.
Proof.
  induction l as [|a l IH]; intros Hext; [done|].
  assert (filter P l = filter Q l) as Hl.
  { apply IH. intros b Hb. by apply Hext, list_elem_of_further. }
  pose proof (Hext a (list_elem_of_here _ _)) as Ha.
  destruct (decide (P a)) as [HP|HP].
  - rewrite !filter_cons_True by tauto. by rewrite Hl.
  - rewrite !filter_cons_False by tauto. done.
Qed.

(** ** The roster and the notifications *)

Section Broadcast.

Variable JSON_parse : value -> option value.
Variable JSON_stringify : value -> value.

(** C2.  For every session and every state of the Map, [updateClient]
    sends the session one "update" message whose payload is the list of
    the records {x, y, animation, flip, name} of the entries of the Map
    whose key is not the session's id, in the order of the Map; no record
    of it is named after the session itself. *)
Theorem updateClient_roster this st :
  let me := objs st !!! this in
  let payload :=
    map (roster_entry st) (filter (fun e => e.1 ≠ id me) (players st)) in
  updateClient JSON_stringify this st =
    connection_send (_c me) (message "update" (JSON_stringify (VArr payload))) st /\
  Forall (fun entry => get entry "name" ≠ Some (VStr (id me))) payload.
Proof.
  intros me payload. split.
  - apply updateClient_eq.
  - subst payload. apply Forall_fmap, Forall_forall.
    intros [k r] [Hne _]%list_elem_of_filter. simpl in *.
    congruence.
Qed.

(** For a session that the Map holds under its id, the entries left out
    of its roster are exactly its own: the others are the sessions other
    than itself. *)
Lemma roster_others_by_reference this st :
  reachable JSON_parse JSON_stringify st ->
  map_get (id (objs st !!! this)) (players st) = Some this ->
  filter (fun e => e.1 ≠ id (objs st !!! this)) (players st) =
  filter (fun e => e.2 ≠ this) (players st).
Proof.
  intros Hwf%reachable_wf Hget. apply filter_ext_elem.
  intros [k r] Hin. simpl.
  destruct (wf_key _ Hwf k r Hin) as [_ Hid].
  split; intros Hne Heq; apply Hne.
  - subst r. done.
  - subst k. apply (map_get_unique _ _ _ (wf_nodup _ Hwf)) in Hin. congruence.
Qed.

(** What the callback that [close] schedules does when it runs: it
    sends, to the connection of every entry of the Map whose key is not
    the session's id, the message {eventName: "disconnected", data: id}
    with the id itself as data (not its JSON text), and nothing else. *)
Lemma notification_eq this st :
  run_task JSON_stringify (SendDisconnected this) st =
  Return (set_sent (fun l => l ++
    map (fun e : string * ref =>
           (_c (objs st !!! e.2), message "disconnected" (VStr (id (objs st !!! this)))))
        (filter (fun e => e.1 ≠ id (objs st !!! this)) (players st))) st).
Proof. cbn [run_task]. by rewrite _sendEventToAll_eq. Qed.

End Broadcast.

(** ** Where pending checks come from *)

Section Monitor.

Variable JSON_parse : value -> option value.
Variable JSON_stringify : value -> value.

Lemma close_checkers this st q :
  Checker q ∈ timers (state_of (close this st)) -> Checker q ∈ timers st.
Proof.
  destruct (close_timers this st) as (n & _ & ->).
  by intros [Hin|[=]%elem_of_notifications]%elem_of_app.
Qed.

Lemma disconnectChecker_checkers player st q :
  Checker q ∈ timers (state_of (disconnectChecker player st)) ->
  Checker q ∈ timers st \/ q = player.
Proof.
  rewrite disconnectChecker_eq. destruct (peerConnection _); [|by left].
  case_bool_decide.
  - intros Hin%close_checkers. by left.
  - simpl. intros [Hin|[= ->]%list_elem_of_singleton]%elem_of_app; [by left | by right].
Qed.

Lemma on_close_fields this st :
  let s := state_of (on_close this st) in
  objs s = objs st /\ sent s = sent st /\
  conns s = conns (closing this st) /\ players s = players (closing this st) /\
  exists n, n <= 1 /\ timers s = timers st ++ replicate n (SendDisconnected this).
Proof.
  rewrite on_close_eq. cbv zeta. destruct (list_draws _); simpl;
    rewrite closing_objs, closing_sent, closing_timers; split_and!; try done.
  - by exists 1.
  - exists 0. split; [lia|]. by rewrite app_nil_r.
Qed.

Lemma close_event_fields this st :
  wf st -> this < length (objs st) ->
  let s := state_of (connection_close (_c (objs st !!! this)) (on_close this) st) in
  objs s = objs st /\ sent s = sent st /\
  conns s = conns (closing this st) /\ players s = players (closing this st) /\
  exists n, n <= 1 /\ timers s = timers st ++ replicate n (SendDisconnected this).
Proof.
  intros Hwf Hthis. rewrite close_event_eq by done.
  destruct (is_open _); [apply on_close_fields|]. simpl.
  rewrite closing_objs, closing_sent, closing_timers. split_and!; try done.
  exists 0. split; [lia|]. by rewrite app_nil_r.
Qed.

Lemma on_error_fields this error st :
  let s := state_of (on_error this error st) in
  objs s = objs st /\ sent s = sent st /\
  conns s = conns (closing this st) /\
  (players s = players (closing this st) \/
   players s = map_delete (id (objs st !!! this)) (players (closing this st))) /\
  exists n, n <= 2 /\ timers s = timers st ++ replicate n (SendDisconnected this).
Proof.
  unfold on_error.
  pose proof (close_objs this st) as Ho. pose proof (close_sent this st) as Hs.
  pose proof (close_conns this st) as Hc. pose proof (close_players this st) as Hp.
  pose proof (close_timers this st) as Ht.
  rewrite <- closing_conns in Hc. rewrite <- closing_players in Hp.
  destruct (close this st) as [s|err s]; cbn [bind state_of] in *.
  - cbn [log set_logger set_players objs sent conns timers players].
    rewrite Ho, Hp. split_and!; try done. by right.
  - split_and!; try done. by left.
Qed.

(** A step constructs at most one Player, and a check that is pending
    after it was pending before it (the check that ran may have put
    itself back) or is the first check of the Player just constructed. *)
Lemma step_checkers st ev q :
  wf st ->
  Checker q ∈ timers (step JSON_parse JSON_stringify st ev) ->
  Checker q ∈ timers st \/ q = length (objs st).
Proof.
  intros Hwf. destruct ev; unfold step; cbn [handle state_of]; try (by left).
  - pose proof (admission_cases JSON_parse JSON_stringify st peer_id connection_state Hwf)
      as Hcases. unfold step in Hcases. cbn [handle] in Hcases.
    destruct (admission_aborts peer_id st).
    + destruct Hcases as (previous & _ & _ & ->). simpl. rewrite closing_timers. by left.
    + rewrite Hcases.
      destruct (before_first_check_state st peer_id connection_state Hwf)
        as (_ & _ & _ & _ & _ & _ & _ & Ht).
      intros [Hin|Hq]%disconnectChecker_checkers; [|by right].
      left. by destruct (Ht _ Hin) as [?|[r [=]]].
  - case_bool_decide; [|by left]. unfold on_open. cbv zeta. rewrite updateList_state.
    by left.
  - case_bool_decide; [|by left].
    destruct (close_event_fields this st Hwf) as (_ & _ & _ & _ & n & _ & ->); [done|].
    intros [Hin|[=]%elem_of_notifications]%elem_of_app. by left.
  - case_bool_decide; [|by left].
    destruct (on_error_fields this error st) as (_ & _ & _ & _ & n & _ & ->).
    intros [Hin|[=]%elem_of_notifications]%elem_of_app. by left.
  - destruct (_ && _); [|by left]. unfold on_data.
    destruct (onUpdate_keeps JSON_parse JSON_stringify this e st) as (_ & _ & -> & _).
    by left.
  - destruct (timers st) as [|t rest] eqn:Hq; [cbn; rewrite Hq; by left|].
    destruct t as [player|this]; cbn [run_task state_of].
    + intros [Hin| ->]%disconnectChecker_checkers; left.
      * by apply list_elem_of_further.
      * apply list_elem_of_here.
    + destruct (_sendEventToAll_keeps JSON_stringify this "disconnected"
        (VStr (id (objs (set_timers (fun _ => rest) st) !!! this))) (VBool true)
        (set_timers (fun _ => rest) st))
        as (_ & _ & Ht & _).
      rewrite Ht. simpl. intros Hin. left. by apply list_elem_of_further.
Qed.

Lemma step_length_objs st ev :
  wf st ->
  length (objs st) <= length (objs (step JSON_parse JSON_stringify st ev)).
Proof.
  intros Hwf. destruct ev; unfold step; cbn [handle state_of]; try done.
  - destruct (admission_state JSON_parse JSON_stringify st peer_id connection_state Hwf)
      as (_ & _ & _ & Ho). unfold step in Ho. cbn [handle] in Ho.
    destruct (admission_aborts peer_id st).
    + destruct Ho as (-> & _). done.
    + destruct Ho as (-> & _). rewrite length_app. lia.
  - case_bool_decide; [|done]. unfold on_open. cbv zeta. by rewrite updateList_state.
  - case_bool_decide; [|done].
    by destruct (close_event_fields this st Hwf) as (-> & _).
  - case_bool_decide; [|done].
    by destruct (on_error_fields this error st) as (-> & _).
  - destruct (_ && _); [|done]. unfold on_data.
    destruct (onUpdate_keeps JSON_parse JSON_stringify this e st) as (_ & _ & _ & -> & _).
    done.
  - destruct (timers st) as [|t rest]; [done|].
    destruct t as [player|this]; cbn [run_task state_of].
    + by rewrite disconnectChecker_objs.
    + destruct (_sendEventToAll_keeps JSON_stringify this "disconnected"
        (VStr (id (objs (set_timers (fun _ => rest) st) !!! this))) (VBool true)
        (set_timers (fun _ => rest) st))
        as (_ & _ & _ & Hl & _).
      by rewrite Hl.
Qed.

(** Once no check of a constructed Player is pending, none ever is. *)
Lemma monitor_stopped_for_good st player evs :
  wf st ->
  player < length (objs st) ->
  Checker player ∉ timers st ->
  Checker player ∉ timers (run JSON_parse JSON_stringify st evs).
Proof.
  revert st. induction evs as [|ev evs IH]; intros st Hwf Hplayer Hnone; [done|].
  simpl. apply IH.
  - by apply step_wf.
  - pose proof (step_length_objs st ev Hwf). lia.
  - intros [Hin| ->]%step_checkers; [done | lia | done].
Qed.

(** The connection of a session is torn down once and for all. *)
Lemma step_closed st ev c :
  wf st -> c < length (conns st) ->
  closed (conns st !!! c) = true ->
  closed (conns (step JSON_parse JSON_stringify st ev) !!! c) = true.
Proof.
  intros Hwf Hc Hclosed.
  assert (forall this, closed (conns (closing this st) !!! c) = true) as Hclosing.
  { intros this. rewrite closing_conns, list_insert_lookup_total.
    by case_bool_decide. }
  destruct ev; unfold step; cbn [handle state_of]; try done.
  - destruct (admission_state JSON_parse JSON_stringify st peer_id connection_state Hwf)
      as (_ & _ & Hold & _). unfold step in Hold. cbn [handle] in Hold.
    rewrite Hold by done. by case_bool_decide.
  - case_bool_decide; [|done]. unfold on_open. cbv zeta. rewrite updateList_state.
    cbn [redrawn set_list_ui conns set_players log set_logger set_conns].
    rewrite list_insert_lookup_total. case_bool_decide as Hcase; [|done].
    destruct Hcase as [-> _]. done.
  - case_bool_decide; [|done].
    by destruct (close_event_fields this st Hwf) as (_ & _ & -> & _).
  - case_bool_decide; [|done].
    by destruct (on_error_fields this error st) as (_ & _ & -> & _).
  - destruct (_ && _); [|done]. unfold on_data.
    by destruct (onUpdate_keeps JSON_parse JSON_stringify this e st) as (_ & -> & _).
  - destruct (timers st) as [|t rest]; [done|].
    destruct t as [player|this]; cbn [run_task state_of].
    + rewrite disconnectChecker_eq. cbn [conns objs set_timers].
      destruct (peerConnection _); [|done].
      case_bool_decide; [|done]. rewrite close_conns. cbn [conns objs set_timers].
      rewrite list_insert_lookup_total. by case_bool_decide.
    + by destruct (_sendEventToAll_keeps JSON_stringify this "disconnected"
        (VStr (id (objs (set_timers (fun _ => rest) st) !!! this))) (VBool true)
        (set_timers (fun _ => rest) st))
        as (_ & -> & _).
  - cbn [conns set_conns].
    destruct (peerConnection (conns st !!! connection)) eqn:Hpc; [|done].
    rewrite list_insert_lookup_total. case_bool_decide as Hcase; [|done].
    destruct Hcase as [-> _]. done.
Qed.

Lemma run_closed st evs c :
  wf st -> c < length (conns st) ->
  closed (conns st !!! c) = true ->
  closed (conns (run JSON_parse JSON_stringify st evs) !!! c) = true.
Proof.
  revert st. induction evs as [|ev evs IH]; intros st Hwf Hc Hclosed; [done|].
  simpl. apply IH.
  - by apply step_wf.
  - pose proof (step_wf JSON_parse JSON_stringify st ev Hwf) as Hwf'.
    pose proof (step_length_objs st ev Hwf).
    rewrite (wf_alloc _ Hwf'). rewrite (wf_alloc _ Hwf) in Hc. lia.
  - by apply step_closed.
Qed.

Lemma run_checkers st evs player :
  wf st -> player < length (objs st) ->
  Checker player ∈ timers (run JSON_parse JSON_stringify st evs) ->
  Checker player ∈ timers st.
Proof.
  revert st. induction evs as [|ev evs IH]; intros st Hwf Hplayer; [done|].
  simpl. intros Hin. apply IH in Hin.
  - apply step_checkers in Hin as [Hin| ->]; [done | lia | done].
  - by apply step_wf.
  - pose proof (step_length_objs st ev Hwf). lia.
Qed.

(** The check of a session whose connection has been torn down: reading
    [connectionState] of the [peerConnection], which is [null], raises. *)
Lemma closed_check_raises st player :
  wf st -> player < length (objs st) ->
  closed (conns st !!! _c (objs st !!! player)) = true ->
  disconnectChecker player st = Throw TypeError st.
Proof.
  intros Hwf Hplayer Hclosed. rewrite disconnectChecker_eq.
  rewrite (wf_conn _ Hwf) in * by done.
  apply (wf_closed _ Hwf) in Hclosed as ->; [done|].
  rewrite (wf_alloc _ Hwf). done.
Qed.

(** When its pending callback runs, it leaves the queue and nothing else
    happens; no check of the session is pending from then on. *)
Lemma closed_check_tick st player rest :
  wf st -> closed (conns st !!! _c (objs st !!! player)) = true ->
  timers st = Checker player :: rest ->
  handle JSON_parse JSON_stringify st Timeout =
    Throw TypeError (set_timers (fun _ => rest) st) /\
  forall evs,
    Checker player ∉ timers (run JSON_parse JSON_stringify
                                (step JSON_parse JSON_stringify st Timeout) evs).
Proof.
  intros Hwf Hclosed Hq.
  assert (player < length (objs st)) as Hplayer.
  { apply (wf_timer _ Hwf (Checker player)). rewrite Hq. apply list_elem_of_here. }
  assert (wf (set_timers (fun _ => rest) st)) as Hwf'.
  { pose proof (step_wf JSON_parse JSON_stringify st Timeout Hwf) as Hs.
    unfold step in Hs. cbn [handle] in Hs. rewrite Hq in Hs. cbn [run_task] in Hs.
    rewrite closed_check_raises in Hs; try done.
    - destruct Hwf as [Ha Hco Hk Hn Hti Hch Hop Hcl Hpe]. rewrite Hq in Hti, Hch.
      split; simpl; try done.
      + intros t Hin. by apply Hti, list_elem_of_further.
      + simpl in Hch. by apply NoDup_cons in Hch as [_ ?]. }
  assert (handle JSON_parse JSON_stringify st Timeout =
          Throw TypeError (set_timers (fun _ => rest) st)) as Hrun.
  { cbn [handle]. rewrite Hq. cbn [run_task]. by apply closed_check_raises. }
  split; [done|]. intros evs. unfold step. rewrite Hrun. cbn [state_of].
  apply monitor_stopped_for_good; [done | done |]. simpl.
  pose proof (wf_checker _ Hwf) as Hnd. rewrite Hq in Hnd. simpl in Hnd.
  apply NoDup_cons in Hnd as [Hfresh _].
  intros Hin. apply Hfresh. apply list_elem_of_omap. by exists (Checker player).
Qed.

End Monitor.

(** ** Opening, closing and the liveness monitor *)

Lemma cleanup_id c st :
  conns st !!! c = mkConnection (peer (conns st !!! c)) true false None ->
  cleanup c st = st.
Proof.
  intros Hc. unfold cleanup, set_conns. rewrite <- Hc.
  destruct (decide (c < length (conns st))) as [Hlt|Hge].
  - rewrite list_insert_id; [by destruct st|].
    by apply list_lookup_lookup_total_lt.
  - rewrite list_insert_ge by lia. by destruct st.
Qed.

Section Lifecycle.

Variable JSON_parse : value -> option value.
Variable JSON_stringify : value -> value.

Lemma run_length_objs st evs :
  wf st ->
  length (objs st) <= length (objs (run JSON_parse JSON_stringify st evs)).
Proof.
  revert st. induction evs as [|ev evs IH]; intros st Hwf; [done|].
  simpl. pose proof (step_length_objs JSON_parse JSON_stringify st ev Hwf).
  pose proof (IH _ (step_wf JSON_parse JSON_stringify st ev Hwf)). lia.
Qed.

Lemma run_wf st evs : wf st -> wf (run JSON_parse JSON_stringify st evs).
Proof.
  revert st. induction evs as [|ev evs IH]; intros st Hwf; [done|].
  simpl. by apply IH, step_wf.
Qed.

(** C5, where the code departs from it.  The open handler has no guard:
    it puts the session into the Map under its id whatever the Map holds
    there, so after the open event the Map maps the id to this session,
    also when it held a newer session of the same identity. *)
Theorem on_open_inserts_unconditionally this st :
  let me := objs st !!! this in
  let st' := state_of (on_open this st) in
  players st' = map_set (id me) this (players st) /\
  map_get (id me) (players st') = Some this /\
  (this < length (objs st) ->
   players (step JSON_parse JSON_stringify st (Open this)) = players st').
Proof.
  intros me st'. subst st'. unfold on_open. cbv zeta. rewrite updateList_state.
  cbn [redrawn set_list_ui players set_players log set_logger objs].
  split_and!; [done | apply map_get_set_eq |].
  intros Hthis. unfold step. cbn [handle]. rewrite bool_decide_eq_true_2 by done.
  unfold on_open. cbv zeta. by rewrite updateList_state.
Qed.

(** Each of the events by which a session closes tears its connection
    down. *)
Lemma closes_closed st player ev :
  wf st -> player < length (objs st) -> closes st player ev ->
  closed (conns (step JSON_parse JSON_stringify st ev) !!! player) = true.
Proof.
  intros Hwf Hplayer Hev.
  pose proof (wf_alloc _ Hwf) as Hlen.
  pose proof (wf_conn _ Hwf player Hplayer) as Hc.
  assert (closed (conns (closing player st) !!! player) = true) as Hclosing.
  { rewrite closing_conns, Hc. by rewrite list_lookup_total_insert_eq by lia. }
  destruct ev; simpl in Hev; try done; unfold step; cbn [handle].
  - destruct (admission_state JSON_parse JSON_stringify st peer_id connection_state Hwf)
      as (_ & _ & Hold & _). unfold step in Hold. cbn [handle] in Hold.
    rewrite Hold by lia. by rewrite bool_decide_eq_true_2.
  - subst this. rewrite bool_decide_eq_true_2 by done.
    by destruct (close_event_fields player st Hwf Hplayer) as (_ & _ & -> & _).
  - subst this. rewrite bool_decide_eq_true_2 by done.
    by destruct (on_error_fields player error st) as (_ & _ & -> & _).
  - destruct Hev as (rest & status & Hq & Hpc & Hstatus). rewrite Hq.
    cbn [run_task]. rewrite disconnectChecker_eq. cbn [conns objs set_timers].
    rewrite Hpc, bool_decide_eq_true_2 by done.
    rewrite close_conns. cbn [conns objs set_timers]. rewrite Hc.
    by rewrite list_lookup_total_insert_eq by lia.
Qed.

(** C6.  Once a session has closed, by the close or error event of its
    connection, by displacement or by a liveness check that found the
    connection failed or disconnected, its connection is torn down for
    good, and its liveness check reads no status and does not put itself
    back any more: it raises at once, on the [peerConnection] that is
    [null].  No check of the session becomes pending; one that was
    pending when the session closed leaves the queue when its turn comes,
    and from then on none is pending. *)
Theorem closed_session_monitor_stops st0 player ev :
  reachable JSON_parse JSON_stringify st0 ->
  player < length (objs st0) ->
  closes st0 player ev ->
  let st := step JSON_parse JSON_stringify st0 ev in
  closed (conns st !!! _c (objs st !!! player)) = true /\
  forall evs,
    let st' := run JSON_parse JSON_stringify st evs in
    closed (conns st' !!! _c (objs st' !!! player)) = true /\
    disconnectChecker player st' = Throw TypeError st' /\
    (Checker player ∈ timers st' -> Checker player ∈ timers st0) /\
    forall rest, timers st' = Checker player :: rest ->
      handle JSON_parse JSON_stringify st' Timeout =
        Throw TypeError (set_timers (fun _ => rest) st') /\
      forall evs',
        Checker player ∉ timers (run JSON_parse JSON_stringify
                                    (step JSON_parse JSON_stringify st' Timeout) evs').
Proof.
  intros Hwf0%reachable_wf Hplayer0 Hev st.
  pose proof (step_wf JSON_parse JSON_stringify st0 ev Hwf0) as Hwf. fold st in Hwf.
  assert (player < length (objs st)) as Hplayer.
  { pose proof (step_length_objs JSON_parse JSON_stringify st0 ev Hwf0). subst st. lia. }
  assert (closed (conns st !!! player) = true) as Hclosed
    by (by apply closes_closed).
  split; [by rewrite (wf_conn _ Hwf)|].
  intros evs st'.
  pose proof (run_wf st evs Hwf) as Hwf'. fold st' in Hwf'.
  assert (player < length (objs st')) as Hplayer'.
  { pose proof (run_length_objs st evs Hwf). subst st'. lia. }
  assert (closed (conns st' !!! _c (objs st' !!! player)) = true) as Hclosed'.
  { rewrite (wf_conn _ Hwf') by done. apply run_closed; try done.
    by rewrite (wf_alloc _ Hwf). }
  split_and!.
  - done.
  - by apply closed_check_raises.
  - intros Hin%run_checkers; [|done..].
    apply step_checkers in Hin as [Hin| ->]; [done | lia | done].
  - intros rest Hq. by apply closed_check_tick.
Qed.

(** After the close event of a session, its connection is as [close]
    leaves it, and a further close event finds nothing to do. *)
Lemma close_event_idempotent st this :
  wf st -> this < length (objs st) ->
  let st' := step JSON_parse JSON_stringify st (Close this) in
  step JSON_parse JSON_stringify st' (Close this) = st'.
Proof.
  intros Hwf Hthis st'.
  pose proof (step_wf JSON_parse JSON_stringify st (Close this) Hwf) as Hwf'.
  fold st' in Hwf'.
  pose proof (wf_alloc _ Hwf) as Hlen.
  pose proof (wf_conn _ Hwf this Hthis) as Hc.
  destruct (close_event_fields this st Hwf Hthis) as (Ho & _ & Hconns & _).
  assert (objs st' = objs st /\ conns st' = conns (closing this st)) as [Ho' Hc'].
  { subst st'. unfold step. cbn [handle]. by rewrite bool_decide_eq_true_2. }
  assert (conns st' !!! this = mkConnection (peer (conns st' !!! this)) true false None)
    as Hconn.
  { rewrite Hc', closing_conns, Hc. by rewrite list_lookup_total_insert_eq by lia. }
  unfold step at 1. cbn [handle]. rewrite bool_decide_eq_true_2 by (by rewrite Ho').
  rewrite close_event_eq by (by rewrite ?Ho').
  assert (is_open (conns st' !!! this) = false) as Hopen by (by rewrite Hconn).
  rewrite Hopen. cbn [state_of].
  unfold closing. rewrite (wf_conn _ Hwf') by (by rewrite Ho').
  rewrite cleanup_id by done.
  unfold unregister. rewrite bool_decide_eq_false_2; [done|].
  apply not_open_unregistered; [done | by rewrite Ho' | done].
Qed.

(** C8, as the code has it by design.  [close] deletes the entry under
    the session's id only if the Map holds this very session there, and
    the close event changes the Map in no other way: after it the id maps
    to nothing if it mapped to this session, and to what it mapped to
    before otherwise.  A second close event changes nothing at all.  But
    every call of [close] that returns has scheduled a notification of
    its own, and two if the connection was open, since [close] then runs
    a second time inside, from the close event that closing the
    connection emits.  So it is for the [close] of the error handler. *)
Theorem close_deletes_own_entry_only st this :
  reachable JSON_parse JSON_stringify st ->
  this < length (objs st) ->
  let me := objs st !!! this in
  let mine := bool_decide (map_get (id me) (players st) = Some this) in
  let notifications :=
    if is_open (conns st !!! this)
    then [SendDisconnected this; SendDisconnected this]
    else [SendDisconnected this] in
  let st' := step JSON_parse JSON_stringify st (Close this) in
  players (state_of (close this st)) =
    (if mine then map_delete (id me) (players st) else players st) /\
  players st' = players (state_of (close this st)) /\
  map_get (id me) (players st') = (if mine then None else map_get (id me) (players st)) /\
  step JSON_parse JSON_stringify st' (Close this) = st' /\
  (forall s, close this st = Return s -> timers s = timers st ++ notifications) /\
  (forall s error,
     handle JSON_parse JSON_stringify st (Error this error) = Return s ->
     timers s = timers st ++ notifications).
Proof.
  intros Hwf%reachable_wf Hthis me mine notifications st'.
  pose proof (wf_conn _ Hwf this Hthis) as Hc.
  assert (players st' = players (state_of (close this st))) as Hp'.
  { subst st'. unfold step. cbn [handle]. rewrite bool_decide_eq_true_2 by done.
    destruct (close_event_fields this st Hwf Hthis) as (_ & _ & _ & -> & _).
    by rewrite close_players, closing_players. }
  assert (forall s, close this st = Return s -> timers s = timers st ++ notifications)
    as Ht.
  { intros s. rewrite close_eq. cbv zeta. rewrite Hc. subst notifications.
    destruct (list_draws _); [|done]. intros [= <-].
    destruct (is_open _); simpl; rewrite closing_timers; [|done].
    by rewrite <- app_assoc. }
  split_and!.
  - apply close_players.
  - done.
  - rewrite Hp', close_players. fold me mine.
    destruct mine; [apply map_get_delete_eq | done].
  - by apply close_event_idempotent.
  - done.
  - intros s error. cbn [handle]. rewrite bool_decide_eq_true_2 by done.
    unfold on_error. destruct (close this st) as [s1|err s1] eqn:Hclose; [|done].
    cbn [bind]. intros [= <-]. simpl. by apply Ht.
Qed.

(** C7, where the code departs from it.  [close] draws the list before
    it schedules the notification.  When an x or y of a session that
    stays in the Map has no string conversion, [updateList] raises, and
    [close] ends there: the connection is torn down and the session is
    out of the Map, but no callback is scheduled and nothing is logged,
    so that the other sessions are never sent the "disconnected" event.
    So it is for the close event of an open connection. *)
Theorem aborted_close_sends_no_notification st this :
  reachable JSON_parse JSON_stringify st ->
  this < length (objs st) ->
  list_draws (closing this st) = false ->
  let s := redrawn (closing this st) in
  close this st = Throw TypeError s /\
  (is_open (conns st !!! this) = true ->
   handle JSON_parse JSON_stringify st (Close this) = Throw TypeError s) /\
  closed (conns s !!! this) = true /\
  map_get (id (objs st !!! this)) (players s) ≠ Some this /\
  timers s = timers st /\ sent s = sent st /\ logger s = logger st.
Proof.
  intros Hwf%reachable_wf Hthis Hdraws s.
  pose proof (wf_conn _ Hwf this Hthis) as Hc.
  pose proof (wf_alloc _ Hwf) as Hlen.
  split_and!.
  - rewrite close_eq. cbv zeta. by rewrite Hdraws.
  - intros Hopen. cbn [handle]. rewrite bool_decide_eq_true_2 by done.
    rewrite close_event_eq, Hopen, on_close_eq by done. cbv zeta. by rewrite Hdraws.
  - subst s. cbn [redrawn set_list_ui conns]. rewrite closing_conns, Hc.
    by rewrite list_lookup_total_insert_eq by lia.
  - subst s. cbn [redrawn set_list_ui players]. unfold closing.
    exact (unregister_done this (cleanup (_c (objs st !!! this)) st)).
  - subst s. simpl. apply closing_timers.
  - subst s. simpl. apply closing_sent.
  - subst s. simpl. apply closing_logger.
Qed.

End Lifecycle.

(** ** Incoming messages *)

Section Ingestion.

Variable JSON_parse : value -> option value.
Variable JSON_stringify : value -> value.

Lemma updateClient_objs this st : objs (updateClient JSON_stringify this st) = objs st.
Proof. by rewrite updateClient_eq. Qed.

Lemma updateClient_sent this st :
  sent (updateClient JSON_stringify this st) =
  sent st ++ [(_c (objs st !!! this),
               message "update" (JSON_stringify (VArr
                 (map (roster_entry st)
                    (filter (fun e => e.1 ≠ id (objs st !!! this)) (players st))))))].
Proof. by rewrite updateClient_eq. Qed.

(** [parseJSON] gives [undefined] on a text that does not parse: the case
    the test [data === undefined] of [onUpdate] is written for. *)
Lemma parseJSON_failure json :
  JSON_parse json = None -> parseJSON JSON_parse json = VUndefined.
Proof. unfold parseJSON. by intros ->. Qed.

(** C3, where the code departs from it.  [onUpdate] calls JSON.parse
    itself, not [parseJSON]: when the data payload of a message does not
    parse, nothing is changed or sent and the session stays as it is, but
    the SyntaxError leaves the handler. *)
Lemma onUpdate_parse_failure this e st eventName e_data :
  get e "eventName" = Some eventName ->
  is_undefined eventName = false ->
  get e "data" = Some e_data ->
  JSON_parse e_data = None ->
  onUpdate JSON_parse JSON_stringify this e st = Throw SyntaxError st.
Proof.
  intros Hname Hdef Hdata Hparse. unfold onUpdate.
  assert (is_undefined e = false) as -> by (by destruct e).
  by rewrite Hname, Hdef, Hdata, Hparse.
Qed.

(** An "update" whose data has fields: the three assignments, the
    roster, and the list, whose drawing decides how the handler ends. *)
Lemma onUpdate_update_eq this e st e_data data data_x data_y data_animation :
  get e "eventName" = Some (VStr "update") ->
  get e "data" = Some e_data ->
  JSON_parse e_data = Some data ->
  get data "x" = Some data_x ->
  get data "y" = Some data_y ->
  get data "animation" = Some data_animation ->
  let s := redrawn (updateClient JSON_stringify this
             (assign_animation this (js_or data_animation zero)
               (assign_y this (js_or data_y zero)
                 (assign_x this (js_or data_x zero) st)))) in
  onUpdate JSON_parse JSON_stringify this e st =
    if list_draws s then Return s else Throw TypeError s.
Proof.
  intros Hname Hdata Hparse Hx Hy Ha s. unfold onUpdate.
  assert (is_undefined e = false) as -> by (by destruct e).
  rewrite Hname, Hdata, Hparse.
  assert (is_undefined data = false) as Hdef by (by destruct data).
  cbn [is_undefined]. rewrite Hdef.
  change (is_string (VStr "update") "update") with true.
  change (is_string (VStr "update") "flip") with false.
  cbv iota. rewrite Hx, Hy, Ha. rewrite updateList_eq.
  subst s. change (list_draws (redrawn ?s)) with (list_draws s).
  by destruct (list_draws _).
Qed.

(** A value that has the field x has the fields y and animation. *)
Lemma get_fields data k data_k k' :
  get data k = Some data_k -> exists data_k', get data k' = Some data_k'.
Proof. destruct data; simpl; intros [=]; eauto. Qed.

(** C4, as the code has it.  An "update" message whose parsed data has
    the field [x] stores [data.x || 0]: a truthy [x] is stored as it is,
    number or not; a falsy one (missing, undefined, null, false, 0, NaN,
    the empty string) gives 0.  The Map and the connections are as
    before.  The handler returns if the list can be drawn afterwards, and
    ends with the TypeError of [updateList] otherwise. *)
Theorem update_stores_x_or_zero this e st e_data data data_x :
  this < length (objs st) ->
  get e "eventName" = Some (VStr "update") ->
  get e "data" = Some e_data ->
  JSON_parse e_data = Some data ->
  get data "x" = Some data_x ->
  let st' := state_of (onUpdate JSON_parse JSON_stringify this e st) in
  x (objs st' !!! this) = (if truthy data_x then data_x else zero) /\
  players st' = players st /\ conns st' = conns st /\
  onUpdate JSON_parse JSON_stringify this e st =
    (if list_draws st' then Return st' else Throw TypeError st').
Proof.
  intros Hthis Hname Hdata Hparse Hx st'.
  destruct (onUpdate_keeps JSON_parse JSON_stringify this e st)
    as (Hp & Hc & _). fold st' in Hp, Hc.
  destruct (get_fields data "x" data_x "y" Hx) as [data_y Hy].
  destruct (get_fields data "x" data_x "animation" Hx) as [data_animation Ha].
  pose proof (onUpdate_update_eq this e st e_data data data_x data_y data_animation
                Hname Hdata Hparse Hx Hy Ha) as Hrun. cbv zeta in Hrun.
  set (s := redrawn _) in Hrun.
  assert (st' = s) as Hst'.
  { subst st'. rewrite Hrun. by destruct (list_draws s). }
  split_and!; try done; [|by rewrite Hst'].
  rewrite Hst'. subst s. cbn [redrawn set_list_ui objs].
  rewrite updateClient_objs.
  rewrite assign_animation_x, assign_y_x, assign_x_x by done.
  done.
Qed.

(** C9.  A "flip" message overwrites the flip field of the session with
    the parsed payload and does nothing else: x, y and animation of every
    session are as before, the flip of every other session too, nothing
    is sent, and the Map, the connections and the timers are untouched.
    (A payload that does not parse ends the handler with the SyntaxError
    and changes nothing at all.) *)
Theorem flip_overwrites_flip_only this e st e_data :
  this < length (objs st) ->
  get e "eventName" = Some (VStr "flip") ->
  get e "data" = Some e_data ->
  let st' := state_of (onUpdate JSON_parse JSON_stringify this e st) in
  onUpdate JSON_parse JSON_stringify this e st =
    match JSON_parse e_data with
    | Some data => Return (assign_flip this data st)
    | None => Throw SyntaxError st
    end /\
  flip (objs st' !!! this) =
    match JSON_parse e_data with
    | Some data => data
    | None => flip (objs st !!! this)
    end /\
  (forall r, x (objs st' !!! r) = x (objs st !!! r) /\
             y (objs st' !!! r) = y (objs st !!! r) /\
             animation (objs st' !!! r) = animation (objs st !!! r) /\
             flip (objs st' !!! r) =
               (if bool_decide (r = this) then flip (objs st' !!! this)
                else flip (objs st !!! r))) /\
  sent st' = sent st /\ players st' = players st /\
  conns st' = conns st /\ timers st' = timers st.
Proof.
  intros Hthis Hname Hdata st'.
  assert (onUpdate JSON_parse JSON_stringify this e st =
    match JSON_parse e_data with
    | Some data => Return (assign_flip this data st)
    | None => Throw SyntaxError st
    end) as Hrun.
  { unfold onUpdate.
    assert (is_undefined e = false) as -> by (by destruct e).
    rewrite Hname, Hdata. simpl. by destruct (JSON_parse e_data). }
  subst st'. rewrite Hrun. destruct (JSON_parse e_data) as [data|]; cbn [state_of].
  - split_and!; try done.
    + by apply assign_flip_flip.
    + intros r. rewrite assign_flip_x, assign_flip_y, assign_flip_animation.
      split_and!; try done.
      case_bool_decide as Hr; [by subst | by apply f_equal, assign_flip_other].
  - split_and!; try done.
    intros r. split_and!; try done. by case_bool_decide; subst.
Qed.

End Ingestion.

(** * Examples *)

Lemma sample_reachable evs :
  reachable JSON_parse_sample JSON_stringify_sample (sample_run init evs).
Proof. apply reachable_run, reachable_init. Qed.

Lemma registry_key_consistency_witness :
  reachable JSON_parse_sample JSON_stringify_sample st_AB /\
  ("B", 1) ∈ players st_AB /\
  exists p, objs st_AB !! 1 = Some p /\ id p = "B".
Proof.
  assert (("B", 1) ∈ players st_AB) as Hin.
  { vm_compute. apply list_elem_of_further, list_elem_of_here. }
  split; [apply sample_reachable|]. split; [exact Hin|].
  exact (registry_key_consistency _ _ st_AB (sample_reachable _) "B" 1 Hin).
Defined.

Lemma one_session_per_identity_witness :
  reachable JSON_parse_sample JSON_stringify_sample st_A /\
  map_get "A" (players st_A) = Some 0 /\
  list_draws (closing 0 st_A) = true /\
  closed (conns (sample_step st_A (Connection_ "A" "new")) !!! 0) = true /\
  map_get "A" (players (sample_step st_A (Connection_ "A" "new"))) = None /\
  map_get "A" (players (sample_run st_A [Connection_ "A" "new"; Open 1])) = Some 1.
Proof.
  split; [apply sample_reachable|]. split; [reflexivity|]. split; [reflexivity|].
  destruct (one_session_per_identity _ _ st_A (sample_reachable _)) as [_ Hd].
  destruct (Hd "A" "new" 0 eq_refl) as (Hclosed & _ & _ & Hgone & Hnew).
  split; [exact Hclosed|]. split; [exact Hgone|].
  change (list_draws (closing 0 st_A)) with true in Hnew.
  exact (proj2 Hnew).
Defined.

Lemma onUpdate_parse_failure_witness :
  get (message "update" (VStr "{")) "eventName" = Some (VStr "update") /\
  JSON_parse_sample (VStr "{") = None /\
  onUpdate JSON_parse_sample JSON_stringify_sample 0
    (message "update" (VStr "{")) st_A = Throw SyntaxError st_A.
Proof.
  split; [reflexivity|]. split; [reflexivity|].
  exact (onUpdate_parse_failure _ _ 0 (message "update" (VStr "{")) st_A
           (VStr "update") (VStr "{") eq_refl eq_refl eq_refl eq_refl).
Defined.

Lemma update_stores_x_or_zero_witness :
  0 < length (objs st_A) /\
  JSON_parse_sample (VStr text_x_false) = Some (VObj [("x", VBool false)]) /\
  x (objs (sample_step st_A (Data 0 (message "update" (VStr text_x_false)))) !!! 0) = zero.
Proof.
  assert (0 < length (objs st_A)) as Hlt by (vm_compute; lia).
  split; [exact Hlt|]. split; [reflexivity|].
  exact (proj1 (update_stores_x_or_zero _ JSON_stringify_sample 0
    (message "update" (VStr text_x_false)) st_A (VStr text_x_false)
    (VObj [("x", VBool false)]) (VBool false) Hlt eq_refl eq_refl eq_refl eq_refl)).
Defined.

Lemma flip_overwrites_flip_only_witness :
  0 < length (objs st_A) /\
  JSON_parse_sample (VStr "true") = Some (VBool true) /\
  flip (objs (sample_step st_A (Data 0 (message "flip" (VStr "true")))) !!! 0) = VBool true /\
  sent (sample_step st_A (Data 0 (message "flip" (VStr "true")))) = sent st_A.
Proof.
  assert (0 < length (objs st_A)) as Hlt by (vm_compute; lia).
  split; [exact Hlt|]. split; [reflexivity|].
  destruct (flip_overwrites_flip_only JSON_parse_sample JSON_stringify_sample 0
    (message "flip" (VStr "true")) st_A (VStr "true") Hlt eq_refl eq_refl)
    as (_ & Hflip & _ & Hsent & _).
  split; [exact Hflip | exact Hsent].
Defined.

(** Session 0 of peer "A" closes by the close event of its connection;
    its check is pending then, and raises when its turn comes. *)
Lemma closed_session_monitor_stops_witness :
  reachable JSON_parse_sample JSON_stringify_sample st_A /\
  0 < length (objs st_A) /\
  closes st_A 0 (Close 0) /\
  timers (sample_step st_A (Close 0)) = [Checker 0; SendDisconnected 0] /\
  sample_handle (sample_step st_A (Close 0)) Timeout =
    Throw TypeError (set_timers (fun _ => [SendDisconnected 0]) (sample_step st_A (Close 0))).
Proof.
  assert (0 < length (objs st_A)) as Hlt by (vm_compute; lia).
  split; [apply sample_reachable|]. split; [exact Hlt|]. split; [reflexivity|].
  split; [reflexivity|].
  destruct (closed_session_monitor_stops JSON_parse_sample JSON_stringify_sample
    st_A 0 (Close 0) (sample_reachable _) Hlt eq_refl) as [_ Hruns].
  destruct (Hruns []) as (_ & _ & _ & Htick).
  exact (proj1 (Htick [SendDisconnected 0] eq_refl)).
Defined.

Lemma close_deletes_own_entry_only_witness :
  reachable JSON_parse_sample JSON_stringify_sample st_AB /\
  1 < length (objs st_AB) /\
  map_get "B" (players (sample_step st_AB (Close 1))) = None /\
  sample_step (sample_step st_AB (Close 1)) (Close 1) = sample_step st_AB (Close 1).
Proof.
  assert (1 < length (objs st_AB)) as Hlt by (vm_compute; lia).
  split; [apply sample_reachable|]. split; [exact Hlt|].
  destruct (close_deletes_own_entry_only JSON_parse_sample JSON_stringify_sample
    st_AB 1 (sample_reachable _) Hlt) as (_ & _ & Hgone & Hagain & _).
  split; [exact Hgone | exact Hagain].
Defined.

(** Peer "B" has reported an x without string conversion; the
    connection of peer "A" closes. *)
Lemma aborted_close_sends_no_notification_witness :
  reachable JSON_parse_sample JSON_stringify_sample st_B_unprintable_A /\
  1 < length (objs st_B_unprintable_A) /\
  list_draws (closing 1 st_B_unprintable_A) = false /\
  is_open (conns st_B_unprintable_A !!! 1) = true /\
  sample_handle st_B_unprintable_A (Close 1) =
    Throw TypeError (redrawn (closing 1 st_B_unprintable_A)) /\
  timers (redrawn (closing 1 st_B_unprintable_A)) = timers st_B_unprintable_A.
Proof.
  assert (1 < length (objs st_B_unprintable_A)) as Hlt by (vm_compute; lia).
  split; [apply sample_reachable|]. split; [exact Hlt|].
  split; [reflexivity|]. split; [reflexivity|].
  destruct (aborted_close_sends_no_notification JSON_parse_sample JSON_stringify_sample
    st_B_unprintable_A 1 (sample_reachable _) Hlt eq_refl)
    as (_ & Hevent & _ & _ & Htimers & _).
  split; [exact (Hevent eq_refl) | exact Htimers].
Defined.

(** The data "null" parses, to [null], and reading [data.x] raises. *)
Lemma update_null_data_raises :
  onUpdate JSON_parse_sample JSON_stringify_sample 0
    (message "update" (VStr "null")) st_A = Throw TypeError st_A.
Proof. vm_compute. reflexivity. Qed.

(** C4 fails as stated: the x of the data is the string "abc", which is
    no number, and the session's x becomes that string, not 0. *)
Lemma nonnumeric_x_is_stored :
  JSON_parse_sample (VStr text_x_abc) = Some (VObj [("x", VStr "abc")]) /\
  x (objs (sample_step st_A (Data 0 (message "update" (VStr text_x_abc)))) !!! 0)
    = VStr "abc" /\
  VStr "abc" ≠ zero.
Proof. vm_compute. repeat split. discriminate. Qed.

(** An x that is an object with a property [toString] is stored as well;
    the roster is sent, and then the handler ends with the TypeError of
    [updateList], the list showing an item without x and y. *)
Lemma unprintable_x_is_stored :
  let st' := sample_step st_A (Data 0 (message "update" (VStr text_x_unprintable))) in
  sample_handle st_A (Data 0 (message "update" (VStr text_x_unprintable))) =
    Throw TypeError st' /\
  x (objs st' !!! 0) = VObj [("toString", VNum 1)] /\
  players st' = players st_A /\ conns st' = conns st_A /\
  sent st' = [(0, message "update" (VStr "[]"))] /\
  list_ui st' = [("A", [])].
Proof. vm_compute. repeat split. Qed.

(** The input at which the code departs from C5: two connections of peer
    "A" arrive, the second opens, and then the first.  The Map holds
    session 1 under "A" when the open event of session 0 fires, and
    session 0 afterwards; the connection of session 1 stays open. *)
Lemma late_open_replaces_newer_session :
  map_get "A" (players st_AA_second_open) = Some 1 /\
  closed (conns st_AA_second_open !!! 0) = false /\
  map_get "A" (players (sample_step st_AA_second_open (Open 0))) = Some 0 /\
  conns (sample_step st_AA_second_open (Open 0)) !!! 1 =
    mkConnection "A" false true (Some "connected").
Proof. vm_compute. repeat split. Qed.

(** The input at which the code departs from C7: peer "B" has reported
    an x without string conversion, and the connection of peer "A"
    closes.  Session 1 leaves the Map and no callback is scheduled; the
    pending callbacks run, and "B" is sent nothing. *)
Lemma disconnected_never_sent :
  let st' := sample_step st_B_unprintable_A (Close 1) in
  players st_B_unprintable_A = [("B", 0); ("A", 1)] /\
  players st' = [("B", 0)] /\
  timers st' = [Checker 0; Checker 1] /\
  timers (sample_run st' [Timeout; Timeout]) = [Checker 0] /\
  sent (sample_run st' [Timeout; Timeout]) = sent st_B_unprintable_A.
Proof. vm_compute. repeat split. Qed.

(** C8 fails as stated: one error event on the open session of "B" runs
    [close] twice and schedules two notifications, and "A" is told twice
    that "B" has left. *)
Lemma error_notifies_twice :
  timers (sample_step st_AB (Error 1 "lost")) =
    [Checker 0; Checker 1; SendDisconnected 1; SendDisconnected 1] /\
  sent (sample_run st_AB [Error 1 "lost"; Timeout; Timeout; Timeout; Timeout]) =
    [(0, message "disconnected" (VStr "B")); (0, message "disconnected" (VStr "B"))].
Proof. vm_compute. repeat split. Qed.

(** So it is when peer "A" connects again while its session is open:
    the session is closed, and two notifications are scheduled. *)
Lemma displacement_notifies_twice :
  timers st_A = [Checker 0] /\
  timers (sample_step st_A (Connection_ "A" "connected")) =
    [Checker 0; SendDisconnected 0; SendDisconnected 0; Checker 1].
Proof. vm_compute. repeat split. Qed.

(** So is it told when the error event follows the close event. *)
Lemma close_then_error_notifies_twice :
  timers (sample_run st_AB [Close 1; Error 1 "lost"]) =
    [Checker 0; Checker 1; SendDisconnected 1; SendDisconnected 1].
Proof. vm_compute. repeat split. Qed.

(** The error handler deletes the entry under the session's id a second
    time, without the test of [close]: an error on session 1, whose place
    in the Map session 0 has taken, removes session 0. *)
Lemma error_on_displaced_removes_replacement :
  map_get "A" (players st_AA_both_open) = Some 0 /\
  players (state_of (close 1 st_AA_both_open)) =
    players st_AA_both_open /\
  map_get "A" (players (sample_step st_AA_both_open (Error 1 "lost"))) = None.
Proof. vm_compute. repeat split. Qed.

(** * Further properties of the server *)

(** ** The list on the page *)

Lemma redrawn_is_drawn st : list_is_drawn (redrawn st).
Proof. reflexivity. Qed.

Lemma list_is_drawn_frame st st' :
  list_ui st' = list_ui st ->
  players st' = players st ->
  (forall e, e ∈ players st ->
     x (objs st' !!! e.2) = x (objs st !!! e.2) /\
     y (objs st' !!! e.2) = y (objs st !!! e.2)) ->
  list_is_drawn st -> list_is_drawn st'.
Proof.
  unfold list_is_drawn. intros -> -> Hitems ->. f_equal. symmetry.
  by apply draw_ext.
Qed.

Lemma list_is_drawn_setTimeout t st :
  list_is_drawn st -> list_is_drawn (setTimeout t st).
Proof. by apply list_is_drawn_frame. Qed.

Lemma list_is_drawn_log text st :
  list_is_drawn st -> list_is_drawn (log text st).
Proof. by apply list_is_drawn_frame. Qed.

Lemma list_is_drawn_close this st : list_is_drawn (state_of (close this st)).
Proof.
  close_cases;
    repeat first [apply list_is_drawn_setTimeout | apply list_is_drawn_log];
    apply redrawn_is_drawn.
Qed.

Lemma list_is_drawn_on_close this st : list_is_drawn (state_of (on_close this st)).
Proof.
  rewrite on_close_eq. cbv zeta. destruct (list_draws _); simpl;
    repeat first [apply list_is_drawn_setTimeout | apply list_is_drawn_log];
    apply redrawn_is_drawn.
Qed.

Lemma list_is_drawn_assign_flip this v st :
  list_is_drawn st -> list_is_drawn (assign_flip this v st).
Proof.
  apply list_is_drawn_frame; try done.
  intros e _. by rewrite assign_flip_x, assign_flip_y.
Qed.

Lemma list_is_drawn_disconnectChecker player st :
  list_is_drawn st -> list_is_drawn (state_of (disconnectChecker player st)).
Proof.
  intros Hst. rewrite disconnectChecker_eq. destruct (peerConnection _); [|done].
  case_bool_decide; [apply list_is_drawn_close | by apply list_is_drawn_setTimeout].
Qed.

Lemma list_is_drawn_admitted connection st :
  wf st -> list_is_drawn st -> list_is_drawn (admitted connection st).
Proof.
  intros Hwf. apply list_is_drawn_frame; try done.
  intros [k r] Hin. apply (wf_key _ Hwf) in Hin as [Hr _].
  cbn [snd]. by rewrite admitted_old_player.
Qed.

(** When every x and y in the Map has a string conversion, the list that
    is drawn shows the Map. *)
Lemma list_is_drawn_shows st :
  list_is_drawn st -> list_draws st = true -> list_shows_players st.
Proof.
  unfold list_is_drawn, list_shows_players. intros -> Hd. by apply draw_all.
Qed.

Lemma is_string_eq v s : is_string v s = true -> v = VStr s.
Proof.
  destruct v; simpl; try discriminate.
  by intros ->%String.eqb_eq.
Qed.

Lemma is_string_update_not_flip v :
  is_string v "update" = true -> is_string v "flip" = false.
Proof. by intros ->%is_string_eq. Qed.

(** The three assignments of an update rewrite the session's object
    once: x, y and animation are new, the rest is as it was. *)
Lemma update_objs this vx vy va st :
  objs (assign_animation this va (assign_y this vy (assign_x this vx st))) =
  <[this := mkPlayer (_c (objs st !!! this)) (id (objs st !!! this)) vx vy va
             (flip (objs st !!! this))]> (objs st).
Proof.
  unfold assign_animation, assign_y, assign_x, set_objs. cbn [objs]. cbv zeta.
  destruct (decide (this < length (objs st))) as [Hlt|Hge].
  - rewrite !list_lookup_total_insert_eq by (by rewrite ?length_insert).
    cbn [_c id x y animation flip].
    by rewrite !list_insert_insert_eq.
  - by rewrite !(list_insert_ge (objs st)) by lia.
Qed.

Lemma update_connection this vx vy va st :
  _c (objs (assign_animation this va (assign_y this vy (assign_x this vx st))) !!! this) =
  _c (objs st !!! this).
Proof.
  rewrite update_objs, list_insert_lookup_total. by case_bool_decide.
Qed.

Section ListOnThePage.

Variable JSON_parse : value -> option value.
Variable JSON_stringify : value -> value.

(** The three ways [onUpdate] can end: with the state it started from
    (whether it returns or throws), with the flip assigned, or with x, y
    and animation assigned, the roster sent and the list drawn, returning
    if the list could be drawn to its end. *)
Lemma onUpdate_cases this e st :
  state_of (onUpdate JSON_parse JSON_stringify this e st) = st \/
  (exists e_data data,
     get e "eventName" = Some (VStr "flip") /\ get e "data" = Some e_data /\
     JSON_parse e_data = Some data /\
     onUpdate JSON_parse JSON_stringify this e st = Return (assign_flip this data st)) \/
  (exists e_data data data_x data_y data_animation,
     get e "eventName" = Some (VStr "update") /\ get e "data" = Some e_data /\
     JSON_parse e_data = Some data /\
     get data "x" = Some data_x /\ get data "y" = Some data_y /\
     get data "animation" = Some data_animation /\
     state_of (onUpdate JSON_parse JSON_stringify this e st) =
       redrawn (updateClient JSON_stringify this
         (assign_animation this (js_or data_animation zero)
           (assign_y this (js_or data_y zero)
             (assign_x this (js_or data_x zero) st))))).
Proof.
  destruct (is_undefined e) eqn:He; [left; unfold onUpdate; by rewrite He|].
  destruct (get e "eventName") as [eventName|] eqn:Hname;
    [|left; unfold onUpdate; by rewrite He, Hname].
  destruct (is_undefined eventName) eqn:Hdef;
    [left; unfold onUpdate; by rewrite He, Hname, Hdef|].
  destruct (get e "data") as [e_data|] eqn:Hdata;
    [|left; unfold onUpdate; by rewrite He, Hname, Hdef, Hdata].
  destruct (JSON_parse e_data) as [data|] eqn:Hparse;
    [|left; unfold onUpdate; by rewrite He, Hname, Hdef, Hdata, Hparse].
  destruct (is_string eventName "update") eqn:Hupdate.
  - apply is_string_eq in Hupdate as ->.
    destruct (get data "x") as [data_x|] eqn:Hx.
    + destruct (get_fields data "x" data_x "y" Hx) as [data_y Hy].
      destruct (get_fields data "x" data_x "animation" Hx) as [data_animation Ha].
      right; right. exists e_data, data, data_x, data_y, data_animation.
      split_and!; try done.
      rewrite (onUpdate_update_eq JSON_parse JSON_stringify this e st _ _ _ _ _
                 Hname Hdata Hparse Hx Hy Ha).
      cbv zeta. by destruct (list_draws _).
    + left. unfold onUpdate. rewrite He, Hname, Hdata, Hparse. cbn [is_undefined].
      destruct data; try discriminate; reflexivity.
  - destruct (is_string eventName "flip") eqn:Hflip.
    + apply is_string_eq in Hflip as ->.
      right; left. exists e_data, data. split_and!; try done.
      unfold onUpdate. by rewrite He, Hname, Hdata, Hparse.
    + left. unfold onUpdate. by rewrite He, Hname, Hdef, Hdata, Hparse, Hupdate, Hflip.
Qed.

Lemma list_is_drawn_onUpdate this e st :
  list_is_drawn st ->
  list_is_drawn (state_of (onUpdate JSON_parse JSON_stringify this e st)).
Proof.
  intros Hst.
  destruct (onUpdate_cases this e st) as
    [->|[(e_data & data & _ & _ & _ & ->)
        |(e_data & data & dx & dy & da & _ & _ & _ & _ & _ & _ & ->)]];
    [done | by apply list_is_drawn_assign_flip | apply redrawn_is_drawn].
Qed.

(** The list is drawn at the end of every handler that changes the Map
    or an x or y, the error handler excepted. *)
Lemma list_is_drawn_step st ev :
  wf st -> is_error_event ev = false ->
  list_is_drawn st ->
  list_is_drawn (step JSON_parse JSON_stringify st ev).
Proof.
  intros Hwf Hev Hst. destruct ev; try discriminate.
  - by apply list_is_drawn_log.
  - by apply list_is_drawn_log.
  - pose proof (admission_cases JSON_parse JSON_stringify st peer_id connection_state Hwf)
      as Hcases.
    destruct (admission_aborts peer_id st).
    + destruct Hcases as (previous & _ & _ & ->). apply redrawn_is_drawn.
    + rewrite Hcases. apply list_is_drawn_disconnectChecker.
      unfold before_first_check.
      destruct (map_get peer_id (players st)) as [previous|] eqn:Hget.
      * apply list_is_drawn_admitted; [|apply list_is_drawn_close].
        apply close_wf; [|done].
        by destruct (wf_key _ Hwf _ _ (map_get_elem_of _ _ _ Hget)).
      * by apply list_is_drawn_admitted.
  - unfold step. cbn [handle]. case_bool_decide; [|done].
    unfold on_open. cbv zeta. rewrite updateList_state. apply redrawn_is_drawn.
  - unfold step. cbn [handle]. case_bool_decide; [|done].
    rewrite close_event_eq by done.
    destruct (is_open _) eqn:Hopen; [apply list_is_drawn_on_close|].
    cbn [state_of]. revert Hst. apply list_is_drawn_frame.
    + apply closing_list_ui.
    + rewrite closing_players. rewrite bool_decide_eq_false_2; [done|].
      by apply not_open_unregistered.
    + intros e _. by rewrite closing_objs.
  - unfold step. cbn [handle]. destruct (_ && _); [|done].
    by apply list_is_drawn_onUpdate.
  - unfold step. cbn [handle]. destruct (timers st) as [|t rest]; [done|].
    assert (list_is_drawn (set_timers (fun _ => rest) st)) as Hst'
      by (revert Hst; by apply list_is_drawn_frame).
    destruct t as [player|this]; cbn [run_task state_of].
    + by apply list_is_drawn_disconnectChecker.
    + rewrite _sendEventToAll_eq. revert Hst'. by apply list_is_drawn_frame.
  - unfold step. cbn [handle state_of]. revert Hst. by apply list_is_drawn_frame.
Qed.

(** X1.  As long as no error event has occurred, the list on the page
    is the one [updateList] draws from the Map and the sessions as they
    are now.  If every x and y in the Map has a string conversion, it
    shows exactly the entries of the Map, in its order, each with the x
    and y its session has now; otherwise it ends with the item of the
    first session whose x or y has none. *)
Theorem list_shows_players_without_errors evs :
  Forall (fun ev => is_error_event ev = false) evs ->
  let st := run JSON_parse JSON_stringify init evs in
  list_is_drawn st /\ (list_draws st = true -> list_shows_players st).
Proof.
  intros Hevs st.
  assert (list_is_drawn st) as Hdrawn.
  { subst st.
    assert (forall st, wf st -> list_is_drawn st ->
      Forall (fun ev => is_error_event ev = false) evs ->
      list_is_drawn (run JSON_parse JSON_stringify st evs)) as Hrun.
    { clear Hevs. induction evs as [|ev evs IH]; intros st Hwf Hst Hevs; [done|].
      apply Forall_cons in Hevs as [Hev Hevs]. simpl.
      apply IH; [by apply step_wf | by apply list_is_drawn_step | done]. }
    apply Hrun; [apply init_wf | done | done]. }
  split; [done | by apply list_is_drawn_shows].
Qed.

End ListOnThePage.

(** ** What a data message can do *)

Section DataMessages.

Variable JSON_parse : value -> option value.
Variable JSON_stringify : value -> value.

(** X2.  Whatever a client sends, handling it changes nothing but the
    sender's own session: every other Player object is as before, and so
    are the Map, the connections, the timers, the log and the id and
    connection of the sender; at most one message is sent, a roster, to
    the sender's own connection. *)
Theorem data_message_isolation this e st :
  let st' := state_of (onUpdate JSON_parse JSON_stringify this e st) in
  keeps st st' /\
  (forall r, r ≠ this -> objs st' !!! r = objs st !!! r) /\
  logger st' = logger st /\
  (sent st' = sent st \/
   exists roster,
     sent st' = sent st ++
       [(_c (objs st !!! this), message "update" (JSON_stringify (VArr roster)))]).
Proof.
  intros st'. split; [apply onUpdate_keeps|].
  destruct (onUpdate_cases JSON_parse JSON_stringify this e st) as
    [Hsame|[(e_data & data & _ & _ & _ & Hrun)
           |(e_data & data & dx & dy & da & _ & _ & _ & _ & _ & _ & Hrun)]];
    subst st'; [rewrite Hsame | rewrite Hrun ..]; cbn [state_of].
  - split_and!; [done | done | by left].
  - split_and!; [| done | by left].
    intros r Hr. by apply assign_flip_other.
  - split_and!; [| done |].
    + intros r Hr. cbn [redrawn set_list_ui objs].
      rewrite updateClient_objs, update_objs.
      rewrite insert_lookup_total. case_bool_decide; [tauto | done].
    + right. eexists. cbn [sent redrawn set_list_ui].
      rewrite updateClient_sent, update_connection. reflexivity.
Qed.

(** X3.  A message that is no "update" and no "flip" (no event name, an
    unknown or non-string event name, or no object at all) changes
    nothing, whether the handler returns or throws. *)
Theorem unrecognized_event_ignored this e st :
  ~ recognized e ->
  state_of (onUpdate JSON_parse JSON_stringify this e st) = st.
Proof.
  intros Hno.
  destruct (onUpdate_cases JSON_parse JSON_stringify this e st) as
    [Hsame|[(e_data & data & Hname & _)
           |(e_data & data & dx & dy & da & Hname & _)]]; [done | |];
    exfalso; apply Hno; [by right | by left].
Qed.

End DataMessages.

(** ** Updates and rosters *)

Section Updates.

Variable JSON_parse : value -> option value.
Variable JSON_stringify : value -> value.

(** The sessions in the roster of [this] are other objects than [this]. *)
Lemma roster_entries_unchanged this me' st :
  wf st ->
  map (roster_entry (set_objs (fun os => <[this := me']> os) st))
      (filter (fun e => e.1 ≠ id (objs st !!! this)) (players st)) =
  map (roster_entry st)
      (filter (fun e => e.1 ≠ id (objs st !!! this)) (players st)).
Proof.
  intros Hwf. apply map_ext_in.
  intros [k r] [Hne Hin]%list_elem_of_In%list_elem_of_filter.
  destruct (wf_key _ Hwf k r Hin) as [_ Hid].
  unfold roster_entry. cbn [objs set_objs fst snd] in *.
  rewrite insert_lookup_total, bool_decide_eq_false_2; [done|].
  intros [-> _]. congruence.
Qed.

(** The state an "update" leaves. *)
Lemma onUpdate_update_state this e st e_data data data_x data_y data_animation :
  get e "eventName" = Some (VStr "update") ->
  get e "data" = Some e_data ->
  JSON_parse e_data = Some data ->
  get data "x" = Some data_x ->
  get data "y" = Some data_y ->
  get data "animation" = Some data_animation ->
  state_of (onUpdate JSON_parse JSON_stringify this e st) =
    redrawn (updateClient JSON_stringify this
      (assign_animation this (js_or data_animation zero)
        (assign_y this (js_or data_y zero)
          (assign_x this (js_or data_x zero) st)))).
Proof.
  intros Hname Hdata Hparse Hx Hy Ha.
  rewrite (onUpdate_update_eq JSON_parse JSON_stringify this e st _ _ _ _ _
             Hname Hdata Hparse Hx Hy Ha).
  cbv zeta. by destruct (list_draws _).
Qed.

(** X4.  An "update" whose data parses to a value with fields makes the
    sender's session hold [data.x || 0], [data.y || 0] and
    [data.animation || 0] and keeps its flip, id and connection.  The
    sender, and nobody else, is sent one message: the records of the
    sessions under the other identities, which the update left as they
    were.  Then the list on the page is drawn; the handler returns if
    every x and y in the Map has a string conversion, and the list then
    shows the Map; otherwise the handler ends with the TypeError, after
    the roster was sent. *)
Theorem update_effect this e st e_data data data_x data_y data_animation :
  reachable JSON_parse JSON_stringify st ->
  this < length (objs st) ->
  get e "eventName" = Some (VStr "update") ->
  get e "data" = Some e_data ->
  JSON_parse e_data = Some data ->
  get data "x" = Some data_x ->
  get data "y" = Some data_y ->
  get data "animation" = Some data_animation ->
  let st' := state_of (onUpdate JSON_parse JSON_stringify this e st) in
  let me := objs st !!! this in
  objs st' !!! this =
    mkPlayer (_c me) (id me) (js_or data_x zero) (js_or data_y zero)
             (js_or data_animation zero) (flip me) /\
  sent st' = sent st ++
    [(_c me, message "update" (JSON_stringify (VArr
        (map (roster_entry st)
             (filter (fun e => e.1 ≠ id me) (players st))))))] /\
  list_is_drawn st' /\
  onUpdate JSON_parse JSON_stringify this e st =
    (if list_draws st' then Return st' else Throw TypeError st') /\
  (list_draws st' = true -> list_shows_players st').
Proof.
  intros Hwf%reachable_wf Hthis Hname Hdata Hparse Hx Hy Ha st' me.
  pose proof (onUpdate_update_eq JSON_parse JSON_stringify this e st _ _ _ _ _
                Hname Hdata Hparse Hx Hy Ha) as Hrun. cbv zeta in Hrun.
  assert (st' = redrawn (updateClient JSON_stringify this
      (assign_animation this (js_or data_animation zero)
        (assign_y this (js_or data_y zero)
          (assign_x this (js_or data_x zero) st))))) as Hst'
    by exact (onUpdate_update_state this e st _ _ _ _ _ Hname Hdata Hparse Hx Hy Ha).
  rewrite <- Hst' in Hrun. clearbody st'. subst st'.
  set (me' := mkPlayer (_c me) (id me) (js_or data_x zero) (js_or data_y zero)
                (js_or data_animation zero) (flip me)).
  set (st3 := assign_animation _ _ _) in *.
  assert (objs st3 = <[this := me']> (objs st)) as Hobjs by apply update_objs.
  assert (objs st3 !!! this = me') as Hme
    by (by rewrite Hobjs, list_lookup_total_insert_eq).
  split_and!.
  - cbn [redrawn set_list_ui objs]. by rewrite updateClient_objs.
  - cbn [sent redrawn set_list_ui]. rewrite updateClient_sent, Hme.
    change (sent st3) with (sent st). change (players st3) with (players st).
    cbn [_c id me'].
    pose proof (roster_entries_unchanged this me' st Hwf) as Hroster.
    fold me in Hroster. rewrite <- Hroster.
    assert (forall l, map (roster_entry st3) l =
      map (roster_entry (set_objs (fun os => <[this := me']> os) st)) l) as ->; [|done].
    intros l. apply map_ext. intros entry. unfold roster_entry.
    cbn [objs set_objs]. by rewrite Hobjs.
  - apply redrawn_is_drawn.
  - exact Hrun.
  - apply list_is_drawn_shows, redrawn_is_drawn.
Qed.

(** X5.  What a registered session reports with an "update" is what the
    sessions under the other identities are told the next time they ask:
    the roster then built for such a session holds the record of the
    reporter with the x, y and animation just stored, its flip and its
    id as name. *)
Theorem update_reaches_other_rosters a b e st e_data data data_x data_y data_animation :
  reachable JSON_parse JSON_stringify st ->
  map_get (id (objs st !!! a)) (players st) = Some a ->
  id (objs st !!! b) ≠ id (objs st !!! a) ->
  get e "eventName" = Some (VStr "update") ->
  get e "data" = Some e_data ->
  JSON_parse e_data = Some data ->
  get data "x" = Some data_x ->
  get data "y" = Some data_y ->
  get data "animation" = Some data_animation ->
  let st' := state_of (onUpdate JSON_parse JSON_stringify a e st) in
  let roster :=
    map (roster_entry st')
        (filter (fun entry => entry.1 ≠ id (objs st !!! b)) (players st)) in
  updateClient JSON_stringify b st' =
    connection_send (_c (objs st !!! b))
      (message "update" (JSON_stringify (VArr roster))) st' /\
  VObj [("x", js_or data_x zero); ("y", js_or data_y zero);
        ("animation", js_or data_animation zero);
        ("flip", flip (objs st !!! a)); ("name", VStr (id (objs st !!! a)))]
    ∈ roster.
Proof.
  intros Hwf%reachable_wf Hreg Hab Hname Hdata Hparse Hx Hy Ha st' roster.
  destruct (onUpdate_keeps JSON_parse JSON_stringify a e st)
    as (Hplayers & _ & _ & _ & Hfields). fold st' in Hplayers, Hfields.
  pose proof (map_get_elem_of _ _ _ Hreg) as Hin.
  destruct (wf_key _ Hwf _ _ Hin) as [Ha_lt _].
  assert (objs st' !!! a =
    mkPlayer (_c (objs st !!! a)) (id (objs st !!! a)) (js_or data_x zero)
      (js_or data_y zero) (js_or data_animation zero) (flip (objs st !!! a)))
    as Hobj.
  { subst st'.
    rewrite (onUpdate_update_state _ _ _ _ _ _ _ _ Hname Hdata Hparse Hx Hy Ha).
    cbn [redrawn set_list_ui objs]. rewrite updateClient_objs, update_objs.
    by rewrite list_lookup_total_insert_eq. }
  split.
  - rewrite updateClient_eq, Hplayers.
    by rewrite (proj1 (Hfields b)), (proj2 (Hfields b)).
  - subst roster.
    apply (list_elem_of_fmap_2' (roster_entry st') _ (id (objs st !!! a), a)).
    + apply list_elem_of_filter. split; [cbn; congruence | done].
    + unfold roster_entry. cbn [fst snd]. by rewrite Hobj.
Qed.

(** X6.  The "update" button of the test client sends its two inputs as
    strings.  When the message arrives (and the JSON text reads back as
    the object it was written from), the session stores the strings
    themselves as x and y, 0 for an empty input, and 0 as animation,
    which the client does not send.  The handler returns if the list can
    be drawn afterwards (the strings themselves can). *)
Theorem client_update_stores_strings this posX posY st :
  this < length (objs st) ->
  JSON_parse (JSON_stringify (VObj [("x", VStr posX); ("y", VStr posY)])) =
    Some (VObj [("x", VStr posX); ("y", VStr posY)]) ->
  let e := client_update JSON_stringify posX posY in
  let st' := state_of (onUpdate JSON_parse JSON_stringify this e st) in
  onUpdate JSON_parse JSON_stringify this e st =
    (if list_draws st' then Return st' else Throw TypeError st') /\
  x (objs st' !!! this) = (if String.eqb posX "" then zero else VStr posX) /\
  y (objs st' !!! this) = (if String.eqb posY "" then zero else VStr posY) /\
  animation (objs st' !!! this) = zero /\
  printable (x (objs st' !!! this)) = true /\
  printable (y (objs st' !!! this)) = true.
Proof.
  intros Hthis Hparse e st'.
  pose proof (onUpdate_update_eq JSON_parse JSON_stringify this e st
    (JSON_stringify (VObj [("x", VStr posX); ("y", VStr posY)]))
    (VObj [("x", VStr posX); ("y", VStr posY)])
    (VStr posX) (VStr posY) VUndefined eq_refl eq_refl Hparse eq_refl eq_refl eq_refl)
    as Hrun. cbv zeta in Hrun.
  assert (st' = redrawn (updateClient JSON_stringify this
      (assign_animation this (js_or VUndefined zero)
        (assign_y this (js_or (VStr posY) zero)
          (assign_x this (js_or (VStr posX) zero) st))))) as Hst'.
  { subst st'. rewrite Hrun. by destruct (list_draws _). }
  rewrite <- Hst' in Hrun. split; [exact Hrun|].
  rewrite Hst'. cbn [redrawn set_list_ui objs].
  rewrite updateClient_objs, update_objs.
  rewrite list_lookup_total_insert_eq by done. cbn [x y animation].
  unfold js_or. cbn [truthy].
  split_and!; [by destruct (String.eqb posX "") | by destruct (String.eqb posY "")
              | done | by destruct (negb _) | by destruct (negb _)].
Qed.

End Updates.

(** ** Admitting a connection *)

Section Admitting.

Variable JSON_parse : value -> option value.
Variable JSON_stringify : value -> value.

Lemma open_event_players st this :
  this < length (objs st) ->
  players (step JSON_parse JSON_stringify st (Open this)) =
  map_set (id (objs st !!! this)) this (players st).
Proof.
  intros Hthis. unfold step. cbn [handle]. rewrite bool_decide_eq_true_2 by done.
  unfold on_open. cbv zeta. by rewrite updateList_state.
Qed.

(** X7.  A connection for an identity that is not in the Map disturbs
    nobody: the Map is as before, no connection that existed is changed,
    nothing is sent, and the only new object is the Player of the
    connection, with x, y, animation and flip 0.  Its open event then
    puts it at the end of the Map. *)
Theorem connection_for_new_identity st peer_id status :
  reachable JSON_parse JSON_stringify st ->
  map_get peer_id (players st) = None ->
  let st' := step JSON_parse JSON_stringify st (Connection_ peer_id status) in
  let new := length (objs st) in
  players st' = players st /\
  objs st' = objs st ++ [mkPlayer (length (conns st)) peer_id zero zero zero zero] /\
  (forall c, c < length (conns st) -> conns st' !!! c = conns st !!! c) /\
  sent st' = sent st /\
  players (step JSON_parse JSON_stringify st' (Open new)) =
    players st ++ [(peer_id, new)].
Proof.
  intros Hwf%reachable_wf Hget st' new. subst new.
  destruct (admission_state JSON_parse JSON_stringify st peer_id status Hwf)
    as (Hp & Hs & Hold & Hnew).
  fold st' in Hp, Hs, Hold, Hnew.
  unfold admission_aborts in Hnew. rewrite Hget in Hnew. destruct Hnew as [Ho _].
  rewrite map_delete_absent in Hp by done.
  split_and!; try done.
  - intros c Hc. rewrite Hold by done. by rewrite bool_decide_eq_false_2 by congruence.
  - rewrite open_event_players by (rewrite Ho, length_app; simpl; lia).
    rewrite Hp, Ho, list_lookup_total_middle by done. cbn [id].
    by apply map_set_absent.
Qed.

(** X8.  When a peer connects and its connection opens, the Map holds the
    other entries as before, in their order, and the new session under
    the peer id, at the end: a reconnecting peer is moved to the end of
    the Map, and the number of entries is as before.  The exception is
    the arrival that [updateList] aborts: the old session of the peer is
    gone then and no new one exists. *)
Theorem connect_then_open st peer_id status :
  reachable JSON_parse JSON_stringify st ->
  let new := length (objs st) in
  let st'' := run JSON_parse JSON_stringify st [Connection_ peer_id status; Open new] in
  players st'' =
    map_delete peer_id (players st) ++
    (if admission_aborts peer_id st then [] else [(peer_id, new)]) /\
  (admission_aborts peer_id st = false ->
   length (players st'') =
     (if map_has peer_id (players st) then length (players st)
      else S (length (players st)))).
Proof.
  intros Hwf%reachable_wf new st''. subst new.
  destruct (admission_state JSON_parse JSON_stringify st peer_id status Hwf)
    as (Hp & _ & _ & Hnew).
  set (st' := step JSON_parse JSON_stringify st (Connection_ peer_id status)) in *.
  assert (players st'' =
          map_delete peer_id (players st) ++
          (if admission_aborts peer_id st then [] else [(peer_id, length (objs st))]))
    as Hp''.
  { subst st''. cbn [run fold_left]. fold st'.
    destruct (admission_aborts peer_id st).
    - destruct Hnew as (Ho & _). unfold step at 1. cbn [handle].
      rewrite bool_decide_eq_false_2 by (rewrite Ho; lia).
      cbn [state_of]. by rewrite app_nil_r.
    - destruct Hnew as (Ho & _).
      rewrite open_event_players by (rewrite Ho, length_app; simpl; lia).
      rewrite Hp, Ho, list_lookup_total_middle by done. cbn [id].
      apply map_set_absent, map_get_delete_eq. }
  split; [done|]. intros Hab. rewrite Hp'', Hab, length_app. cbn [length].
  unfold map_has.
  destruct (map_get peer_id (players st)) as [previous|] eqn:Hget.
  - rewrite <- (map_delete_length peer_id previous (players st)); [lia | apply Hwf | done].
  - rewrite map_delete_absent by done. lia.
Qed.

(** X9.  The constructor runs the first liveness check at once.  A
    connection that arrives with the status "failed" or "disconnected" is
    closed on the spot, and no check of it is ever pending; its
    notification is scheduled if the list could be drawn.  With any other
    status the connection is left as it arrived and its check is pending.
    (When [updateList] aborts the arrival, there is no Player, and no
    check.) *)
Theorem first_liveness_check st peer_id status :
  reachable JSON_parse JSON_stringify st ->
  admission_aborts peer_id st = false ->
  let st' := step JSON_parse JSON_stringify st (Connection_ peer_id status) in
  let new := length (objs st) in
  if bool_decide (status = "failed" \/ status = "disconnected")
  then closed (conns st' !!! new) = true /\
       (list_draws st' = true -> SendDisconnected new ∈ timers st') /\
       forall evs, Checker new ∉ timers (run JSON_parse JSON_stringify st' evs)
  else conns st' !!! new = arriving peer_id status /\
       Checker new ∈ timers st'.
Proof.
  intros Hst Hab st' new. subst new.
  pose proof (reachable_wf _ _ _ Hst) as Hwf.
  pose proof (admission_cases JSON_parse JSON_stringify st peer_id status Hwf) as Hcases.
  fold st' in Hcases. rewrite Hab in Hcases.
  destruct (before_first_check_state st peer_id status Hwf)
    as (Hwfs & Ho & Hp & Hs & Hl & Hnew & Hold & Ht).
  set (s := before_first_check peer_id status st) in *.
  pose proof (wf_alloc _ Hwf) as Hlen.
  assert (objs s !!! length (objs st) =
          mkPlayer (length (conns st)) peer_id zero zero zero zero) as Hme
    by (by rewrite Ho, list_lookup_total_middle).
  assert (wf st') as Hwf' by (by apply step_wf).
  rewrite disconnectChecker_eq, Hme in Hcases. cbn [_c] in Hcases.
  rewrite Hlen, Hnew in Hcases. cbn [arriving peerConnection] in Hcases.
  case_bool_decide.
  - assert (Checker (length (objs st)) ∉ timers s) as Hfresh.
    { intros [Hin|[r [=]]]%Ht. apply (wf_timer _ Hwf) in Hin. simpl in Hin. lia. }
    split_and!.
    + rewrite Hcases, close_conns, Hme. cbn [_c]. rewrite Hlen.
      by rewrite list_lookup_total_insert_eq by lia.
    + intros Hdraws. rewrite Hcases in Hdraws |- *.
      revert Hdraws. rewrite close_eq. cbv zeta.
      destruct (list_draws (closing _ s)) eqn:Hd.
      * intros _. destruct (is_open _); simpl;
          rewrite !elem_of_app, !list_elem_of_singleton; auto.
      * cbn [state_of]. change (list_draws (redrawn ?a)) with (list_draws a).
        congruence.
    + intros evs. apply monitor_stopped_for_good; [done | |].
      * rewrite Hcases, close_objs, Ho, length_app. simpl. lia.
      * rewrite Hcases. by intros Hin%close_checkers.
  - split.
    + rewrite Hcases. cbn [state_of setTimeout set_timers conns]. exact Hnew.
    + rewrite Hcases. simpl. apply elem_of_app. right. apply list_elem_of_here.
Qed.

End Admitting.

(** ** Errors, and what an event can touch *)

Section Isolation.

Variable JSON_parse : value -> option value.
Variable JSON_stringify : value -> value.

(** X10.  An error event on a session tears its connection down,
    changes no Player object and sends nothing, and leaves the entries
    under the other ids alone.  If the list can be drawn, the handler
    returns: the entry under the session's id is removed whoever holds
    it (this session or another one), [close] has scheduled its
    notification (two for a connection that was open), and the list on
    the page is the one [close] drew, before the second removal.
    Otherwise the handler ends in [close], with the TypeError of
    [updateList]: the entry is removed only if it is this session's, and
    nothing is scheduled. *)
Theorem error_removes_identity this error st :
  reachable JSON_parse JSON_stringify st ->
  this < length (objs st) ->
  let me := objs st !!! this in
  let st' := step JSON_parse JSON_stringify st (Error this error) in
  let notifications :=
    if is_open (conns st !!! this)
    then [SendDisconnected this; SendDisconnected this]
    else [SendDisconnected this] in
  closed (conns st' !!! _c me) = true /\
  objs st' = objs st /\ sent st' = sent st /\
  (forall k, k ≠ id me -> map_get k (players st') = map_get k (players st)) /\
  if list_draws (closing this st)
  then handle JSON_parse JSON_stringify st (Error this error) = Return st' /\
       players st' = map_delete (id me) (players st) /\
       timers st' = timers st ++ notifications /\
       list_ui st' = (draw (objs st) (players (closing this st)) []).1
  else handle JSON_parse JSON_stringify st (Error this error) = Throw TypeError st' /\
       players st' = players (closing this st) /\
       timers st' = timers st.
Proof.
  intros Hwf%reachable_wf Hthis me st' notifications.
  pose proof (wf_conn _ Hwf this Hthis) as Hc.
  pose proof (wf_alloc _ Hwf) as Hlen.
  assert (handle JSON_parse JSON_stringify st (Error this error) = on_error this error st)
    as Hrun by (cbn [handle]; by rewrite bool_decide_eq_true_2).
  assert (st' = state_of (on_error this error st)) as Hst'
    by (subst st'; unfold step; by rewrite Hrun).
  destruct (on_error_fields this error st) as (Ho & Hs & Hconns & Hp & _).
  rewrite <- Hst' in Ho, Hs, Hconns, Hp.
  split_and!.
  - rewrite Hconns, closing_conns. fold me.
    by rewrite list_lookup_total_insert_eq by (subst me; lia).
  - done.
  - done.
  - intros k Hk. destruct Hp as [-> | ->]; rewrite closing_players;
      case_bool_decide; rewrite ?map_get_delete_ne by done; done.
  - rewrite Hrun. rewrite Hst'. unfold on_error. rewrite close_eq. cbv zeta. rewrite Hc.
    subst notifications.
    destruct (list_draws (closing this st)); cbn [bind state_of].
    + split_and!; [done | | |].
      * cbn [log set_logger set_players players].
        assert (forall s, objs s = objs st -> players s = players (closing this st) ->
          map_delete (id (objs s !!! this)) (players s) = map_delete (id me) (players st))
          as Hdel.
        { intros s -> ->. fold me. rewrite closing_players. fold me.
          case_bool_decide; [apply map_delete_idemp | done]. }
        destruct (is_open _); apply Hdel; try reflexivity; simpl; apply closing_objs.
      * destruct (is_open _); simpl; rewrite closing_timers; [|done].
        by rewrite <- app_assoc.
      * destruct (is_open _); simpl; by rewrite closing_objs.
    + split_and!; [done | done |]. simpl. apply closing_timers.
Qed.

(** X11.  An event changes the Map under one identity at most: the peer
    id of the connection that arrives, the id of the session whose
    handler or liveness check runs.  Under every other identity the Map
    holds what it held. *)
Theorem step_touches_one_identity st ev k :
  reachable JSON_parse JSON_stringify st ->
  event_identity st ev ≠ Some k ->
  map_get k (players (step JSON_parse JSON_stringify st ev)) = map_get k (players st).
Proof.
  intros Hwf%reachable_wf Hk.
  destruct ev; cbn [event_identity] in *; try done.
  - destruct (admission_state JSON_parse JSON_stringify st peer_id connection_state Hwf)
      as (-> & _).
    apply map_get_delete_ne. congruence.
  - unfold step. cbn [handle]. case_bool_decide; [|done].
    unfold on_open. cbv zeta. rewrite updateList_state.
    cbn [redrawn set_list_ui players set_players log set_logger objs set_conns].
    apply map_get_set_ne. congruence.
  - unfold step. cbn [handle]. case_bool_decide; [|done].
    destruct (close_event_fields this st Hwf) as (_ & _ & _ & -> & _); [done|].
    rewrite closing_players. case_bool_decide; [|done].
    apply map_get_delete_ne. congruence.
  - unfold step. cbn [handle]. case_bool_decide; [|done].
    destruct (on_error_fields this error st) as (_ & _ & _ & [-> | ->] & _);
      rewrite closing_players; case_bool_decide;
      rewrite ?map_get_delete_ne by congruence; done.
  - unfold step. cbn [handle]. destruct (_ && _); [|done]. unfold on_data.
    by destruct (onUpdate_keeps JSON_parse JSON_stringify this e st) as (-> & _).
  - unfold step. cbn [handle]. destruct (timers st) as [|t rest]; [done|].
    destruct t as [player|this]; cbn [run_task state_of].
    + rewrite disconnectChecker_eq. destruct (peerConnection _); [|done].
      case_bool_decide; [|done].
      rewrite close_get_other; [done|]. simpl. congruence.
    + by destruct (_sendEventToAll_keeps JSON_stringify this "disconnected"
        (VStr (id (objs (set_timers (fun _ => rest) st) !!! this))) (VBool true)
        (set_timers (fun _ => rest) st)) as (-> & _).
Qed.

(** X12.  In every reachable state at most one liveness check is pending
    per session, and every pending callback belongs to a Player that has
    been constructed. *)
Theorem pending_callbacks st :
  reachable JSON_parse JSON_stringify st ->
  NoDup (omap checker_of (timers st)) /\
  Forall (fun t => task_ref t < length (objs st)) (timers st).
Proof.
  intros Hwf%reachable_wf. split; [apply Hwf|].
  apply Forall_forall. apply Hwf.
Qed.

End Isolation.

(** ** Invariants of the stores, the messages and the log *)

Lemma logged_app lines lines' text :
  logged (lines ++ lines') text = logged lines' (logged lines text).
Proof. apply fold_left_app. Qed.

(** What [close] adds to the log. *)
Lemma close_logger this st :
  logger (state_of (close this st)) = logged (close_lines this st) (logger st).
Proof.
  unfold close_lines. rewrite close_eq. cbv zeta.
  destruct (list_draws _); [destruct (is_open _)|]; simpl; by rewrite closing_logger.
Qed.

Lemma close_lines_frame this st st' :
  objs st' = objs st -> players st' = players st -> conns st' = conns st ->
  close_lines this st' = close_lines this st.
Proof.
  intros Ho Hp Hc. unfold close_lines, list_draws, disconnected_line.
  rewrite !closing_objs, !closing_players. by rewrite Ho, Hp, Hc.
Qed.

Lemma disconnectChecker_logger player st :
  logger (state_of (disconnectChecker player st)) =
  logged
    match peerConnection (conns st !!! _c (objs st !!! player)) with
    | Some status =>
        if bool_decide (status = "failed" \/ status = "disconnected")
        then close_lines player st else []
    | None => []
    end (logger st).
Proof.
  rewrite disconnectChecker_eq. destruct (peerConnection _); [|done].
  case_bool_decide; [apply close_logger | done].
Qed.

Section Stores.

Variable JSON_parse : value -> option value.
Variable JSON_stringify : value -> value.

(** X13.  In every reachable state every Player holds a connection of
    its own, Player number [r] the connection number [r] of those that
    got a Player, and its id is the peer id of that connection: no
    message and no event changes the id of a session or the connection
    it holds. *)
Theorem players_wrap_their_connections st :
  reachable JSON_parse JSON_stringify st ->
  length (objs st) = length (conns st) /\
  (forall r, r < length (objs st) ->
     _c (objs st !!! r) = r /\ id (objs st !!! r) = peer (conns st !!! r)) /\
  (forall r r', r < length (objs st) -> r' < length (objs st) ->
     _c (objs st !!! r) = _c (objs st !!! r') -> r = r').
Proof.
  intros Hwf%reachable_wf. split_and!.
  - symmetry. apply Hwf.
  - intros r Hr. split; [by apply Hwf | by apply (wf_peer _ Hwf)].
  - intros r r' Hr Hr'. by rewrite !(wf_conn _ Hwf).
Qed.

Lemma onUpdate_sent this e st :
  let st' := state_of (onUpdate JSON_parse JSON_stringify this e st) in
  logger st' = logger st /\
  (sent st' = sent st \/
   exists roster,
     sent st' = sent st ++
       [(_c (objs st !!! this), message "update" (JSON_stringify (VArr roster)))]).
Proof.
  intros st'.
  destruct (onUpdate_cases JSON_parse JSON_stringify this e st) as
    [Hsame|[(e_data & data & _ & _ & _ & Hrun)
           |(e_data & data & dx & dy & da & _ & _ & _ & _ & _ & _ & Hrun)]];
    subst st'; [rewrite Hsame | rewrite Hrun ..]; cbn [state_of].
  - split; [done | by left].
  - split; [done | by left].
  - split; [done|]. right. eexists. cbn [sent redrawn set_list_ui].
    rewrite updateClient_sent, update_connection. reflexivity.
Qed.

Lemma step_sent st ev :
  wf st ->
  exists new,
    sent (step JSON_parse JSON_stringify st ev) = sent st ++ new /\
    Forall (fun cm => cm.1 < length (conns st) /\ server_message JSON_stringify cm.2) new.
Proof.
  intros Hwf.
  pose proof (wf_alloc _ Hwf) as Hlen.
  assert (forall s : state, sent s = sent st ->
    exists new, sent s = sent st ++ new /\
      Forall (fun cm => cm.1 < length (conns st) /\ server_message JSON_stringify cm.2) new)
    as Hnone.
  { intros s Hs. exists []. by rewrite app_nil_r. }
  destruct ev; try (by apply Hnone).
  - apply Hnone.
    by destruct (admission_state JSON_parse JSON_stringify st peer_id connection_state Hwf)
      as (_ & -> & _).
  - unfold step. cbn [handle]. case_bool_decide; [|by apply Hnone]. apply Hnone.
    unfold on_open. cbv zeta. by rewrite updateList_state.
  - unfold step. cbn [handle]. case_bool_decide; [|by apply Hnone]. apply Hnone.
    by destruct (close_event_fields this st Hwf) as (_ & -> & _).
  - unfold step. cbn [handle]. case_bool_decide; [|by apply Hnone]. apply Hnone.
    by destruct (on_error_fields this error st) as (_ & -> & _).
  - unfold step. cbn [handle].
    destruct (bool_decide_reflect (this < length (objs st))) as [Hthis|];
      [|by apply Hnone].
    cbn [andb]. destruct (is_open _); [|by apply Hnone]. unfold on_data.
    destruct (onUpdate_sent this e st) as [_ [Hs|[roster Hs]]]; [by apply Hnone|].
    eexists. split; [exact Hs|].
    apply Forall_singleton. cbn [fst snd]. split.
    + rewrite (wf_conn _ Hwf this Hthis). lia.
    + left. by exists roster.
  - unfold step. cbn [handle]. destruct (timers st) as [|t rest]; [by apply Hnone|].
    destruct t as [player|this]; cbn [run_task state_of].
    + apply Hnone. by rewrite disconnectChecker_sent.
    + rewrite _sendEventToAll_eq. eexists. split; [reflexivity|].
      apply Forall_forall.
      intros cm ([k r] & -> & [_ Hin]%list_elem_of_filter)%list_elem_of_fmap.
      cbn [fst snd objs set_timers] in *.
      destruct (wf_key _ Hwf k r Hin) as [Hr _].
      split; [rewrite (wf_conn _ Hwf r Hr); lia|].
      right. by eexists.
Qed.

Lemma step_length_conns st ev :
  wf st ->
  length (conns st) <= length (conns (step JSON_parse JSON_stringify st ev)).
Proof.
  intros Hwf.
  pose proof (step_wf JSON_parse JSON_stringify st ev Hwf) as Hwf'.
  pose proof (step_length_objs JSON_parse JSON_stringify st ev Hwf).
  rewrite (wf_alloc _ Hwf), (wf_alloc _ Hwf'). done.
Qed.

(** X14.  Everything the server has ever sent is one of two messages, a
    roster [{eventName: "update", data: <JSON text of an array>}] or a
    departure [{eventName: "disconnected", data: <an id, as it is>}], and
    went to a connection the server had received. *)
Theorem sent_messages_are_well_formed st :
  reachable JSON_parse JSON_stringify st ->
  Forall (fun cm => cm.1 < length (conns st) /\ server_message JSON_stringify cm.2)
         (sent st).
Proof.
  induction 1 as [|st ev Hst IH]; [by apply Forall_nil|].
  apply reachable_wf in Hst.
  destruct (step_sent st ev Hst) as (new & -> & Hnew).
  pose proof (step_length_conns st ev Hst) as Hlen.
  apply Forall_app.
  split; (eapply Forall_impl; [eassumption|]);
    intros cm [Hc Hm]; (split; [lia | done]).
Qed.

(** X15.  The log is only ever added to, and only by the lifecycle of
    the server and of the sessions: the server's own open and close, the
    open event of a session, the close handler of a session whose open
    connection is closed (by its close event, an error event, the
    arrival of a connection of its peer or a failed liveness check), and
    the error handler.  The close and error handlers log only if
    [close] was not aborted.  Data and status changes log nothing. *)
Theorem log_records_lifecycle st ev :
  reachable JSON_parse JSON_stringify st ->
  logger (step JSON_parse JSON_stringify st ev) = logged (log_lines st ev) (logger st).
Proof.
  intros Hwf%reachable_wf. destruct ev; cbn [log_lines]; try done.
  - pose proof (admission_cases JSON_parse JSON_stringify st peer_id connection_state Hwf)
      as Hcases.
    destruct (before_first_check_state st peer_id connection_state Hwf)
      as (_ & Ho & _ & _ & _ & Hnew & _).
    set (s := before_first_check peer_id connection_state st) in *.
    assert (logger (state_of (disconnectChecker (length (objs st)) s)) = logger s) as Hchk.
    { rewrite disconnectChecker_logger.
      assert (close_lines (length (objs st)) s = []) as ->.
      { unfold close_lines. rewrite Ho, list_lookup_total_middle by done. cbn [_c].
        rewrite (wf_alloc _ Hwf), Hnew. cbn [arriving is_open].
        by rewrite andb_false_r. }
      destruct (peerConnection _); [by case_bool_decide | done]. }
    unfold admission_aborts in Hcases.
    destruct (map_get peer_id (players st)) as [previous|] eqn:Hget.
    + destruct (list_draws (closing previous st)) eqn:Hdraws; cbn [negb] in Hcases.
      * rewrite Hcases, Hchk. subst s. unfold before_first_check. rewrite Hget.
        change (logger (admitted ?c ?a)) with (logger a). apply close_logger.
      * destruct Hcases as (previous' & _ & _ & ->).
        unfold close_lines. rewrite Hdraws. simpl. apply closing_logger.
    + rewrite Hcases, Hchk. subst s. unfold before_first_check. by rewrite Hget.
  - unfold step. cbn [handle]. case_bool_decide; [|done].
    unfold on_open. cbv zeta. by rewrite updateList_state.
  - unfold step. cbn [handle]. case_bool_decide; [|done].
    rewrite close_event_eq by done. unfold close_lines.
    rewrite (wf_conn _ Hwf) by done.
    destruct (is_open _).
    + rewrite on_close_eq. cbv zeta. rewrite andb_true_r.
      destruct (list_draws _); simpl; by rewrite closing_logger.
    + rewrite andb_false_r. simpl. apply closing_logger.
  - unfold step. cbn [handle]. case_bool_decide; [|done]. cbn [andb].
    unfold on_error. pose proof (close_logger this st) as Hl.
    pose proof (close_objs this st) as Ho.
    rewrite close_eq in *. cbv zeta in *.
    destruct (list_draws (closing this st)); cbn [bind state_of] in *.
    + cbn [log set_logger logger set_players objs]. rewrite Hl, Ho.
      by rewrite logged_app.
    + simpl. apply closing_logger.
  - unfold step. cbn [handle]. destruct (_ && _); [|done]. unfold on_data.
    by destruct (onUpdate_sent this e st) as [-> _].
  - unfold step. cbn [handle]. destruct (timers st) as [|t rest]; [done|].
    destruct t as [player|this]; cbn [run_task state_of].
    + rewrite disconnectChecker_logger.
      by rewrite (close_lines_frame player st (set_timers (fun _ => rest) st)).
    + by rewrite _sendEventToAll_eq.
Qed.

End Stores.

(** ** The roster of a registered session, and the notifications *)

Section RegisteredRoster.

Variable JSON_parse : value -> option value.
Variable JSON_stringify : value -> value.

(** X16.  For a session that the Map holds under its id, the roster it
    is sent is made of the records of all the other sessions in the Map,
    in the order of the Map: the one entry left out is its own. *)
Theorem roster_of_registered_session this st :
  reachable JSON_parse JSON_stringify st ->
  map_get (id (objs st !!! this)) (players st) = Some this ->
  updateClient JSON_stringify this st =
    connection_send this
      (message "update" (JSON_stringify (VArr
         (map (roster_entry st) (filter (fun e => e.2 ≠ this) (players st))))))
      st /\
  length (filter (fun e => e.2 ≠ this) (players st)) = length (players st) - 1.
Proof.
  intros Hst Hget.
  pose proof (reachable_wf _ _ _ Hst) as Hwf.
  pose proof (map_get_elem_of _ _ _ Hget) as Hin.
  destruct (wf_key _ Hwf _ _ Hin) as [Hthis _].
  rewrite <- (roster_others_by_reference JSON_parse JSON_stringify this st Hst Hget).
  split.
  - rewrite updateClient_eq. by rewrite (wf_conn _ Hwf this Hthis).
  - rewrite <- map_delete_filter.
    rewrite <- (map_delete_length _ _ _ (wf_nodup _ Hwf) Hget). lia.
Qed.

(** X17.  When the callback that [close] schedules runs, it sends the
    message {eventName: "disconnected", data: id}, with the id of the
    closed session itself as data (not its JSON text), to the connection
    of every entry of the Map whose key is not that id, in the order of
    the Map, and does nothing else; no session under the id of the
    closed session is among the receivers. *)
Theorem disconnected_notification st this rest :
  reachable JSON_parse JSON_stringify st ->
  timers st = SendDisconnected this :: rest ->
  let me := objs st !!! this in
  let notified := filter (fun e => e.1 ≠ id me) (players st) in
  let notice := message "disconnected" (VStr (id me)) in
  handle JSON_parse JSON_stringify st Timeout =
    Return (set_sent (fun l => l ++ map (fun e => (e.2, notice)) notified)
              (set_timers (fun _ => rest) st)) /\
  (forall e, e ∈ players st -> e.1 ≠ id me ->
     (e.2, notice) ∈ sent (step JSON_parse JSON_stringify st Timeout)) /\
  (forall r, (id me, r) ∈ players st ->
     (r, notice) ∉ map (fun e => (e.2, notice)) notified).
Proof.
  intros Hwf%reachable_wf Hq me notified notice.
  assert (handle JSON_parse JSON_stringify st Timeout =
    Return (set_sent (fun l => l ++ map (fun e => (e.2, notice)) notified)
              (set_timers (fun _ => rest) st))) as Hrun.
  { assert (map (fun e : string * ref => (_c (objs st !!! e.2), notice)) notified =
            map (fun e : string * ref => (e.2, notice)) notified) as Hmap.
    { apply map_ext_in. intros [k r] [_ Hin]%list_elem_of_In%list_elem_of_filter.
      destruct (wf_key _ Hwf k r Hin) as [Hr _]. cbn [snd].
      by rewrite (wf_conn _ Hwf r Hr). }
    cbn [handle]. rewrite Hq, notification_eq. cbn [objs players set_timers].
    fold me notice notified. by rewrite Hmap. }
  split_and!.
  - exact Hrun.
  - intros e Hin Hne. unfold step. rewrite Hrun. simpl.
    apply elem_of_app. right.
    apply (list_elem_of_fmap_2 (fun e => (e.2, notice))).
    by apply list_elem_of_filter.
  - intros r Hin ([k r'] & Heq & [Hne Hin']%list_elem_of_filter)%list_elem_of_fmap.
    simpl in *.
    destruct (wf_key _ Hwf _ _ Hin) as [Hr Hidr].
    destruct (wf_key _ Hwf _ _ Hin') as [Hr' Hidr'].
    simplify_eq.
Qed.

(** X18.  In every reachable state the sessions in the Map are
    constructed Players whose connection has opened and has not been
    closed by [close] since: [close] takes a session out of the Map when
    it closes its connection, and only the open event puts one in. *)
Theorem registered_sessions_are_open st :
  reachable JSON_parse JSON_stringify st ->
  forall k r, (k, r) ∈ players st ->
    r < length (objs st) /\
    is_open (conns st !!! _c (objs st !!! r)) = true.
Proof.
  intros Hwf%reachable_wf k r Hin.
  destruct (wf_key _ Hwf k r Hin) as [Hr _]. split; [done|].
  rewrite (wf_conn _ Hwf r Hr). by apply (wf_open _ Hwf k).
Qed.

End RegisteredRoster.

(** * Examples of the further properties *)

Lemma list_shows_players_without_errors_witness :
  Forall (fun ev => is_error_event ev = false)
    [Connection_ "A" "connected"; Open 0;
     Data 0 (message "update" (VStr text_x_abc));
     Connection_ "B" "connected"; Open 1; Close 1] /\
  list_shows_players
    (sample_run init
       [Connection_ "A" "connected"; Open 0;
        Data 0 (message "update" (VStr text_x_abc));
        Connection_ "B" "connected"; Open 1; Close 1]).
Proof.
  assert (Forall (fun ev => is_error_event ev = false)
    [Connection_ "A" "connected"; Open 0;
     Data 0 (message "update" (VStr text_x_abc));
     Connection_ "B" "connected"; Open 1; Close 1]) as Hevs
    by (repeat constructor).
  split; [exact Hevs|].
  exact (proj2 (list_shows_players_without_errors JSON_parse_sample JSON_stringify_sample
                  _ Hevs) eq_refl).
Defined.

(** After an error event on session 1, whose place in the Map session 0
    has taken, the Map is empty and the list still shows "A". *)
Lemma error_leaves_list_stale :
  players (sample_step st_AA_both_open (Error 1 "lost")) = [] /\
  list_ui (sample_step st_AA_both_open (Error 1 "lost")) = [("A", [zero; zero])].
Proof. vm_compute. repeat split. Qed.

(** With an x that has no string conversion in the Map, the list stops
    at the item of its session. *)
Lemma unprintable_x_cuts_the_list :
  players st_B_unprintable_A = [("B", 0); ("A", 1)] /\
  list_draws st_B_unprintable_A = false /\
  list_ui st_B_unprintable_A = [("B", [])].
Proof. vm_compute. repeat split. Qed.

Lemma unrecognized_event_ignored_witness :
  ~ recognized (message "ping" (VStr "true")) /\
  state_of (onUpdate JSON_parse_sample JSON_stringify_sample 0
              (message "ping" (VStr "true")) st_A) = st_A.
Proof.
  assert (~ recognized (message "ping" (VStr "true"))) as Hno
    by (intros [H|H]; discriminate H).
  split; [exact Hno|].
  exact (unrecognized_event_ignored _ _ 0 _ st_A Hno).
Defined.

Lemma update_effect_witness :
  reachable JSON_parse_sample JSON_stringify_sample st_A /\
  0 < length (objs st_A) /\
  objs (sample_step st_A (Data 0 (message "update" (VStr text_x_abc)))) !!! 0 =
    mkPlayer 0 "A" (VStr "abc") zero zero zero /\
  sent (sample_step st_A (Data 0 (message "update" (VStr text_x_abc)))) =
    [(0, message "update" (VStr "[]"))].
Proof.
  assert (0 < length (objs st_A)) as Hlt by (vm_compute; lia).
  split; [apply sample_reachable|]. split; [exact Hlt|].
  destruct (update_effect JSON_parse_sample JSON_stringify_sample 0
    (message "update" (VStr text_x_abc)) st_A (VStr text_x_abc)
    (VObj [("x", VStr "abc")]) (VStr "abc") VUndefined VUndefined
    (sample_reachable _) Hlt eq_refl eq_refl eq_refl eq_refl eq_refl eq_refl)
    as (Hobj & Hsent & _).
  split; [exact Hobj | exact Hsent].
Defined.

Lemma update_reaches_other_rosters_witness :
  reachable JSON_parse_sample JSON_stringify_sample st_A_open_B_pending /\
  map_get "A" (players st_A_open_B_pending) = Some 0 /\
  VObj [("x", VStr "abc"); ("y", zero); ("animation", zero); ("flip", zero);
        ("name", VStr "A")]
    ∈ map (roster_entry
             (sample_step st_A_open_B_pending
                (Data 0 (message "update" (VStr text_x_abc)))))
          (filter (fun entry => entry.1 ≠ "B") (players st_A_open_B_pending)).
Proof.
  split; [apply sample_reachable|]. split; [reflexivity|].
  assert (id (objs st_A_open_B_pending !!! 1) ≠ id (objs st_A_open_B_pending !!! 0))
    as Hne by (vm_compute; discriminate).
  exact (proj2 (update_reaches_other_rosters JSON_parse_sample JSON_stringify_sample
    0 1 (message "update" (VStr text_x_abc)) st_A_open_B_pending (VStr text_x_abc)
    (VObj [("x", VStr "abc")]) (VStr "abc") VUndefined VUndefined
    (sample_reachable _) eq_refl Hne eq_refl eq_refl eq_refl eq_refl eq_refl eq_refl)).
Defined.

Lemma client_update_stores_strings_witness :
  0 < length (objs st_A) /\
  JSON_parse_client (JSON_stringify_client (VObj [("x", VStr "12"); ("y", VStr "")])) =
    Some (VObj [("x", VStr "12"); ("y", VStr "")]) /\
  x (objs (state_of (onUpdate JSON_parse_client JSON_stringify_client 0
       (client_update JSON_stringify_client "12" "") st_A)) !!! 0) = VStr "12" /\
  y (objs (state_of (onUpdate JSON_parse_client JSON_stringify_client 0
       (client_update JSON_stringify_client "12" "") st_A)) !!! 0) = zero.
Proof.
  assert (0 < length (objs st_A)) as Hlt by (vm_compute; lia).
  split; [exact Hlt|]. split; [reflexivity|].
  destruct (client_update_stores_strings JSON_parse_client JSON_stringify_client
    0 "12" "" st_A Hlt eq_refl) as (_ & Hx & Hy & _).
  split; [exact Hx | exact Hy].
Defined.

Lemma connection_for_new_identity_witness :
  reachable JSON_parse_sample JSON_stringify_sample st_A /\
  map_get "B" (players st_A) = None /\
  players (sample_step st_A (Connection_ "B" "connected")) = players st_A /\
  players (sample_run st_A [Connection_ "B" "connected"; Open 1]) =
    [("A", 0); ("B", 1)].
Proof.
  split; [apply sample_reachable|]. split; [reflexivity|].
  destruct (connection_for_new_identity JSON_parse_sample JSON_stringify_sample
    st_A "B" "connected" (sample_reachable _) eq_refl) as (Hp & _ & _ & _ & Hopen).
  split; [exact Hp | exact Hopen].
Defined.

Lemma connect_then_open_witness :
  reachable JSON_parse_sample JSON_stringify_sample st_AB /\
  admission_aborts "A" st_AB = false /\
  players (sample_run st_AB [Connection_ "A" "connected"; Open 2]) =
    [("B", 1); ("A", 2)].
Proof.
  split; [apply sample_reachable|]. split; [reflexivity|].
  exact (proj1 (connect_then_open JSON_parse_sample JSON_stringify_sample
    st_AB "A" "connected" (sample_reachable _))).
Defined.

(** The arrival that [updateList] aborts: peer "A" reconnects while "B"
    is in the Map with an x without string conversion. *)
Lemma aborted_arrival :
  admission_aborts "A" st_B_unprintable_A = true /\
  players (sample_run st_B_unprintable_A [Connection_ "A" "connected"; Open 2]) =
    [("B", 0)] /\
  length (objs (sample_step st_B_unprintable_A (Connection_ "A" "connected"))) = 2.
Proof. vm_compute. repeat split. Qed.

Lemma first_liveness_check_witness :
  reachable JSON_parse_sample JSON_stringify_sample st_A /\
  admission_aborts "B" st_A = false /\
  closed (conns (sample_step st_A (Connection_ "B" "failed")) !!! 1) = true /\
  SendDisconnected 1 ∈ timers (sample_step st_A (Connection_ "B" "failed")).
Proof.
  split; [apply sample_reachable|]. split; [reflexivity|].
  destruct (first_liveness_check JSON_parse_sample JSON_stringify_sample
    st_A "B" "failed" (sample_reachable _) eq_refl) as (Hclosed & Hpending & _).
  split; [exact Hclosed | exact (Hpending eq_refl)].
Defined.

Lemma error_removes_identity_witness :
  reachable JSON_parse_sample JSON_stringify_sample st_AA_both_open /\
  1 < length (objs st_AA_both_open) /\
  map_get "A" (players st_AA_both_open) = Some 0 /\
  closed (conns (sample_step st_AA_both_open (Error 1 "lost")) !!! 1) = true /\
  map_get "B" (players (sample_step st_AA_both_open (Error 1 "lost"))) =
    map_get "B" (players st_AA_both_open).
Proof.
  assert (1 < length (objs st_AA_both_open)) as Hlt by (vm_compute; lia).
  split; [apply sample_reachable|]. split; [exact Hlt|]. split; [reflexivity|].
  destruct (error_removes_identity JSON_parse_sample JSON_stringify_sample
    1 "lost" st_AA_both_open (sample_reachable _) Hlt) as (Hclosed & _ & _ & Hother & _).
  split; [exact Hclosed|].
  apply Hother. vm_compute. discriminate.
Defined.

(** The entry under "A" holds session 0; the error event on session 1
    removes it. *)
Lemma error_removes_other_session :
  map_get "A" (players st_AA_both_open) = Some 0 /\
  sample_handle st_AA_both_open (Error 1 "lost") =
    Return (sample_step st_AA_both_open (Error 1 "lost")) /\
  players (sample_step st_AA_both_open (Error 1 "lost")) = [] /\
  timers (sample_step st_AA_both_open (Error 1 "lost")) =
    timers st_AA_both_open ++ [SendDisconnected 1; SendDisconnected 1].
Proof. vm_compute. repeat split. Qed.

Lemma step_touches_one_identity_witness :
  reachable JSON_parse_sample JSON_stringify_sample st_AB /\
  event_identity st_AB (Error 0 "lost") ≠ Some "B" /\
  map_get "B" (players (sample_step st_AB (Error 0 "lost"))) =
    map_get "B" (players st_AB).
Proof.
  assert (event_identity st_AB (Error 0 "lost") ≠ Some "B") as Hne
    by (vm_compute; discriminate).
  split; [apply sample_reachable|]. split; [exact Hne|].
  exact (step_touches_one_identity JSON_parse_sample JSON_stringify_sample
    st_AB (Error 0 "lost") "B" (sample_reachable _) Hne).
Defined.

Lemma pending_callbacks_witness :
  reachable JSON_parse_sample JSON_stringify_sample st_AB /\
  NoDup (omap checker_of (timers st_AB)).
Proof.
  split; [apply sample_reachable|].
  exact (proj1 (pending_callbacks JSON_parse_sample JSON_stringify_sample
    st_AB (sample_reachable _))).
Defined.

Lemma players_wrap_their_connections_witness :
  reachable JSON_parse_sample JSON_stringify_sample st_AB /\
  length (objs st_AB) = length (conns st_AB) /\
  id (objs st_AB !!! 1) = peer (conns st_AB !!! 1).
Proof.
  assert (1 < length (objs st_AB)) as Hlt by (vm_compute; lia).
  split; [apply sample_reachable|].
  destruct (players_wrap_their_connections JSON_parse_sample JSON_stringify_sample
    st_AB (sample_reachable _)) as (Hlen & Hall & _).
  split; [exact Hlen | exact (proj2 (Hall 1 Hlt))].
Defined.

Lemma sent_messages_are_well_formed_witness :
  reachable JSON_parse_sample JSON_stringify_sample
    (sample_step st_A (Data 0 (message "update" (VStr text_x_abc)))) /\
  sent (sample_step st_A (Data 0 (message "update" (VStr text_x_abc)))) =
    [(0, message "update" (VStr "[]"))] /\
  Forall (fun cm =>
            cm.1 < length (conns (sample_step st_A
                           (Data 0 (message "update" (VStr text_x_abc))))) /\
            server_message JSON_stringify_sample cm.2)
    (sent (sample_step st_A (Data 0 (message "update" (VStr text_x_abc))))).
Proof.
  assert (reachable JSON_parse_sample JSON_stringify_sample
    (sample_step st_A (Data 0 (message "update" (VStr text_x_abc))))) as Hst
    by (constructor; apply sample_reachable).
  split; [exact Hst|]. split; [vm_compute; reflexivity|].
  exact (sent_messages_are_well_formed JSON_parse_sample JSON_stringify_sample _ Hst).
Defined.

Lemma log_records_lifecycle_witness :
  reachable JSON_parse_sample JSON_stringify_sample st_AB /\
  log_lines st_AB (Error 1 "lost") =
    ["Disconnected: B";
     "An Error occured while communicating with B, connection closed. lost"] /\
  logger (sample_step st_AB (Error 1 "lost")) =
    logged (log_lines st_AB (Error 1 "lost")) (logger st_AB).
Proof.
  split; [apply sample_reachable|]. split; [vm_compute; reflexivity|].
  exact (log_records_lifecycle JSON_parse_sample JSON_stringify_sample
    st_AB (Error 1 "lost") (sample_reachable _)).
Defined.

Lemma roster_of_registered_session_witness :
  reachable JSON_parse_sample JSON_stringify_sample st_AB /\
  map_get (id (objs st_AB !!! 0)) (players st_AB) = Some 0 /\
  length (filter (fun e => e.2 ≠ 0) (players st_AB)) = length (players st_AB) - 1.
Proof.
  split; [apply sample_reachable|]. split; [reflexivity|].
  exact (proj2 (roster_of_registered_session JSON_parse_sample JSON_stringify_sample
    0 st_AB (sample_reachable _) eq_refl)).
Defined.

Lemma disconnected_notification_witness :
  reachable JSON_parse_sample JSON_stringify_sample st_B_closed /\
  timers st_B_closed = [SendDisconnected 1; Checker 0] /\
  sample_handle st_B_closed Timeout =
    Return (set_sent (fun l => l ++ [(0, message "disconnected" (VStr "B"))])
              (set_timers (fun _ => [Checker 0]) st_B_closed)).
Proof.
  split; [apply sample_reachable|]. split; [reflexivity|].
  exact (proj1 (disconnected_notification JSON_parse_sample JSON_stringify_sample
    st_B_closed 1 [Checker 0] (sample_reachable _) eq_refl)).
Defined.

Lemma registered_sessions_are_open_witness :
  reachable JSON_parse_sample JSON_stringify_sample st_AB /\
  ("B", 1) ∈ players st_AB /\
  is_open (conns st_AB !!! _c (objs st_AB !!! 1)) = true.
Proof.
  assert (("B", 1) ∈ players st_AB) as Hin.
  { vm_compute. apply list_elem_of_further, list_elem_of_here. }
  split; [apply sample_reachable|]. split; [exact Hin|].
  exact (proj2 (registered_sessions_are_open JSON_parse_sample JSON_stringify_sample
    st_AB (sample_reachable _) "B" 1 Hin)).
Defined.
